(** * smart-release-please: rc_align.py

    A shallow embedding of [actions/smart-release-please/rc_align.py] and
    the properties of its version-decision logic.

    Modelling conventions.
    - A Python [str] is a [string] of 8-bit characters.  On this range the
      regular-expression class [\d] is exactly ['0'..'9'] and [.] is every
      character but the line feed.
    - A Python [int] is a [Z]; [str] and [int] conversions are the
      mathematical ones (no interpreter-side limit on the digit count).
    - [None] is [option]'s [None]; truthiness of an optional string is
      [truthy].
    - The three regular-expression entry points the script uses ([re.match],
      [re.search], [re.sub]) run on one backtracking matcher, [mexec], over
      the syntax the script's patterns need.
    - Effects ([print], [subprocess.run], [os.environ], [open]/[write],
      [sys.exit], exceptions) are threaded through the monad [M]. *)

From Stdlib Require Import ZArith List Bool Ascii String Lia Permutation.
Import ListNotations.
Open Scope string_scope.
Open Scope Z_scope.

(* ================================================================== *)
(** * Part I: the embedding                                             *)
(* ================================================================== *)

(** ** Strings *)

Definition LF : ascii := ascii_of_N 10.

(** [s.startswith(p)]. *)
Fixpoint startswith (p s : string) : bool :=
  match p with
  | "" => true
  | String a p' =>
      match s with
      | "" => false
      | String b s' => if (a =? b)%char then startswith p' s' else false
      end
  end.

(** [needle in hay] on strings. *)
Fixpoint str_in (needle hay : string) : bool :=
  if startswith needle hay then true
  else match hay with
       | "" => false
       | String _ hay' => str_in needle hay'
       end.

(** [s.split(sep)] for a one-character separator. *)
Fixpoint split_char (sep : ascii) (s : string) : list string :=
  match s with
  | "" => [""]
  | String c s' =>
      if (c =? sep)%char then "" :: split_char sep s'
      else match split_char sep s' with
           | l :: ls => String c l :: ls
           | [] => [String c ""]
           end
  end.

(** [str.isspace] on one 8-bit character. *)
Definition py_isspace (c : ascii) : bool :=
  let n := N_of_ascii c in
  ((9 <=? n) && (n <=? 13) || (28 <=? n) && (n <=? 32)
   || (n =? 133) || (n =? 160))%N.

Fixpoint lstrip_by (p : ascii -> bool) (s : string) : string :=
  match s with
  | "" => ""
  | String c s' => if p c then lstrip_by p s' else s
  end.

Fixpoint rstrip_by (p : ascii -> bool) (s : string) : string :=
  match s with
  | "" => ""
  | String c s' =>
      match rstrip_by p s' with
      | "" => if p c then "" else String c ""
      | t => String c t
      end
  end.

(** [s.strip()]. *)
Definition strip (s : string) : string :=
  rstrip_by py_isspace (lstrip_by py_isspace s).

(** [s.lstrip(chars)] for a one-character [chars]. *)
Definition lstrip_char (c : ascii) (s : string) : string :=
  lstrip_by (fun x => (x =? c)%char) s.

(** Truthiness of [None] / [str]. *)
Definition truthy (o : option string) : bool :=
  match o with
  | None => false
  | Some "" => false
  | Some _ => true
  end.

(** ** Integers as text *)

Definition digit_char (d : Z) : ascii := ascii_of_N (Z.to_N (48 + d)).

Definition digit_val (c : ascii) : Z := Z.of_N (N_of_ascii c) - 48.

Definition is_digit (c : ascii) : bool :=
  let n := N_of_ascii c in ((48 <=? n) && (n <=? 57))%N.

Fixpoint str_digits (fuel : nat) (n : Z) (acc : string) : string :=
  match fuel with
  | O => acc
  | S f =>
      let acc' := String (digit_char (n mod 10)) acc in
      if n <? 10 then acc' else str_digits f (n / 10) acc'
  end.

Definition str_nonneg (n : Z) : string :=
  str_digits (S (Z.to_nat (Z.log2 n))) n "".

(** [str(n)], which is also what an f-string field [{n}] renders. *)
Definition py_str (n : Z) : string :=
  if n <? 0 then String "-" (str_nonneg (- n)) else str_nonneg n.

Fixpoint int_acc (acc : Z) (s : string) : Z :=
  match s with
  | "" => acc
  | String c s' => int_acc (10 * acc + digit_val c) s'
  end.

(** [int(s)] on a run of decimal digits (all that a [\d+] group holds). *)
Definition py_int (s : string) : Z := int_acc 0 s.

(** ** calculate_next_version *)

Definition calculate_next_version
  (major minor patch rc depth : Z) (is_breaking is_feat from_stable : bool)
  : string :=
  if is_breaking then
    py_str (major + 1) ++ ".0.0-rc." ++ py_str depth
  else if is_feat then
    if from_stable || (0 <? patch) then
      py_str major ++ "." ++ py_str (minor + 1) ++ ".0-rc." ++ py_str depth
    else
      py_str major ++ "." ++ py_str minor ++ "." ++ py_str patch
        ++ "-rc." ++ py_str (rc + depth)
  else if from_stable then
    py_str major ++ "." ++ py_str minor ++ "." ++ py_str (patch + 1)
      ++ "-rc." ++ py_str depth
  else
    py_str major ++ "." ++ py_str minor ++ "." ++ py_str patch
      ++ "-rc." ++ py_str (rc + depth).

(** ** Regular expressions

    The syntax covers what the script's five patterns are built from:
    literals, the classes [\d] and [.] under [*] and [+], the anchors,
    sequence, alternation, [?] and numbered groups. *)

Inductive cclass : Type :=
| CDigit   (* \d *)
| CDot.    (* .  *)

Definition cmatch (cl : cclass) (c : ascii) : bool :=
  match cl with
  | CDigit => is_digit c
  | CDot => negb (c =? LF)%char
  end.

Inductive regex : Type :=
| RLit (l : string)
| RStar (cl : cclass)
| RPlus (cl : cclass)
| RBol
| REol
| RSeq (r1 r2 : regex)
| RAlt (r1 r2 : regex)
| ROpt (r : regex)
| RGroup (i : nat) (r : regex).

Infix "@@" := RSeq (at level 60, right associativity).

(** A position in the subject is the character before it (if any) and the
    text after it. *)
Definition at_bol (multiline : bool) (prev : option ascii) : bool :=
  match prev with
  | None => true
  | Some c => multiline && (c =? LF)%char
  end.

Definition at_eol (multiline : bool) (s : string) : bool :=
  match s with
  | "" => true
  | String c s' => (c =? LF)%char && (multiline || (s' =? "")%string)
  end.

Definition groups : Type := list (nat * string).

(** The text between two positions [s] and its suffix [s']. *)
Definition taken (s s' : string) : string :=
  substring 0 (String.length s - String.length s') s.

Fixpoint lit_k {A} (l : string) (prev : option ascii) (s : string)
  (k : option ascii -> string -> option A) : option A :=
  match l with
  | "" => k prev s
  | String a l' =>
      match s with
      | "" => None
      | String b s' => if (a =? b)%char then lit_k l' (Some b) s' k else None
      end
  end.

(** Greedy repetition of a one-character class, longest first. *)
Fixpoint star_k {A} (p : ascii -> bool) (prev : option ascii) (s : string)
  (k : option ascii -> string -> option A) : option A :=
  match s with
  | "" => k prev ""
  | String c s' =>
      if p c then
        match star_k p (Some c) s' k with
        | Some x => Some x
        | None => k prev s
        end
      else k prev s
  end.

Fixpoint mexec {A} (multiline : bool) (r : regex)
  (prev : option ascii) (s : string) (caps : groups)
  (k : option ascii -> string -> groups -> option A) : option A :=
  match r with
  | RLit l => lit_k l prev s (fun p s' => k p s' caps)
  | RStar cl => star_k (cmatch cl) prev s (fun p s' => k p s' caps)
  | RPlus cl =>
      match s with
      | "" => None
      | String c s' =>
          if cmatch cl c
          then star_k (cmatch cl) (Some c) s' (fun p s'' => k p s'' caps)
          else None
      end
  | RBol => if at_bol multiline prev then k prev s caps else None
  | REol => if at_eol multiline s then k prev s caps else None
  | RSeq r1 r2 =>
      mexec multiline r1 prev s caps
        (fun p s' c => mexec multiline r2 p s' c k)
  | RAlt r1 r2 =>
      match mexec multiline r1 prev s caps k with
      | Some x => Some x
      | None => mexec multiline r2 prev s caps k
      end
  | ROpt r1 =>
      match mexec multiline r1 prev s caps k with
      | Some x => Some x
      | None => k prev s caps
      end
  | RGroup i r1 =>
      mexec multiline r1 prev s caps
        (fun p s' c => k p s' ((i, taken s s') :: c))
  end.

(** A match object: the text left after the match and the groups. *)
Record match_obj : Type := MkMatch { m_end : string; m_groups : groups }.

Definition accept : option ascii -> string -> groups -> option match_obj :=
  fun _ s' c => Some (MkMatch s' c).

(** [re.match(r, s)]. *)
Definition re_match (r : regex) (s : string) : option match_obj :=
  mexec false r None s [] accept.

Fixpoint search_from (multiline : bool) (r : regex)
  (prev : option ascii) (s : string) : option match_obj :=
  match mexec multiline r prev s [] accept with
  | Some m => Some m
  | None =>
      match s with
      | "" => None
      | String c s' => search_from multiline r (Some c) s'
      end
  end.

(** [re.search(r, s, flags)], [multiline] being [re.MULTILINE]. *)
Definition re_search (multiline : bool) (r : regex) (s : string)
  : option match_obj :=
  search_from multiline r None s.

(** [re.sub(r, repl, s)]: every leftmost non-overlapping match is replaced;
    [skip] counts the characters of the current match still to be dropped. *)
Fixpoint sub_scan (r : regex) (repl : string) (prev : option ascii)
  (s : string) (skip : nat) {struct s} : string :=
  match skip with
  | S n =>
      match s with
      | "" => ""
      | String c s' => sub_scan r repl (Some c) s' n
      end
  | O =>
      match mexec false r prev s [] accept with
      | Some m =>
          match s with
          | "" => repl
          | String c s' =>
              match (String.length s - String.length (m_end m))%nat with
              | O => repl ++ String c (sub_scan r repl (Some c) s' 0)
              | S n => repl ++ sub_scan r repl (Some c) s' n
              end
          end
      | None =>
          match s with
          | "" => ""
          | String c s' => String c (sub_scan r repl (Some c) s' 0)
          end
      end
  end.

Definition re_sub (r : regex) (repl s : string) : string :=
  sub_scan r repl None s 0.

(** ** Exceptions *)

Inductive exn : Type := Exn (cls : string) (msg : string).

Definition exn_str (e : exn) : string := let 'Exn _ m := e in m.

Definition is_CalledProcessError (e : exn) : bool :=
  let 'Exn c _ := e in (c =? "CalledProcessError")%string.

Inductive result (A : Type) : Type :=
| Ok (a : A)
| Err (e : exn).
Arguments Ok {A} a.
Arguments Err {A} e.

(** [m[i]]: the text of group [i]; [None] when the group took no part. *)
Fixpoint group (g : groups) (i : nat) : option string :=
  match g with
  | [] => None
  | (j, t) :: g' => if Nat.eqb i j then Some t else group g' i
  end.

Fixpoint str_forall (p : ascii -> bool) (s : string) : bool :=
  match s with
  | "" => true
  | String c s' => p c && str_forall p s'
  end.

Definition all_digits (s : string) : bool :=
  negb (s =? "")%string && str_forall is_digit s.

(** [int(m[i])]: a group that is absent is a [TypeError], text that is not a
    run of digits a [ValueError]. *)
Definition int_group (m : match_obj) (i : nat) : result Z :=
  match group (m_groups m) i with
  | None => Err (Exn "TypeError" "int() argument must be a string")
  | Some t =>
      if all_digits t then Ok (py_int t)
      else Err (Exn "ValueError" "invalid literal for int() with base 10")
  end.

(** ** parse_semver *)

Definition rc_regex : regex :=
  RBol @@ RLit "v" @@ RGroup 1 (RPlus CDigit) @@ RLit "."
       @@ RGroup 2 (RPlus CDigit) @@ RLit "."
       @@ RGroup 3 (RPlus CDigit) @@ RLit "-rc."
       @@ RGroup 4 (RPlus CDigit) @@ REol.

Definition stable_regex : regex :=
  RBol @@ RLit "v" @@ RGroup 1 (RPlus CDigit) @@ RLit "."
       @@ RGroup 2 (RPlus CDigit) @@ RLit "."
       @@ RGroup 3 (RPlus CDigit) @@ REol.

Definition parse_semver (tag : option string) : result (Z * Z * Z * Z) :=
  match tag with
  | None | Some "" => Ok (0, 0, 0, 0)
  | Some t =>
      match re_match rc_regex t with
      | Some m_rc =>
          match int_group m_rc 1, int_group m_rc 2,
                int_group m_rc 3, int_group m_rc 4 with
          | Ok a, Ok b, Ok c, Ok d => Ok (a, b, c, d)
          | Err e, _, _, _ | _, Err e, _, _
          | _, _, Err e, _ | _, _, _, Err e => Err e
          end
      | None =>
          match re_match stable_regex t with
          | Some m_stable =>
              match int_group m_stable 1, int_group m_stable 2,
                    int_group m_stable 3 with
              | Ok a, Ok b, Ok c => Ok (a, b, c, 0)
              | Err e, _, _ | _, Err e, _ | _, _, Err e => Err e
              end
          | None => Ok (0, 0, 0, 0)
          end
      end
  end.

(** ** The process and its surroundings *)

(** What the script reads from outside: the environment variables, the
    [git] binary behind [subprocess.run] (its captured standard output, or
    the exception the call raises), and whether a path opens for append. *)
Record World : Type := MkWorld {
  environ : string -> option string;
  subprocess_run : list string -> bool -> exn + string;
  open_append : string -> option exn
}.

(** What the script changes: the lines printed, the commands run, and the
    text appended to files, each oldest first. *)
Record State : Type := MkState {
  stdout : list string;
  calls : list (list string);
  writes : list (string * string)
}.

Inductive outcome (A : Type) : Type :=
| Ret (a : A)          (* normal completion *)
| Raise (e : exn)      (* an exception (a subclass of Exception) in flight *)
| Exit (code : Z).     (* SystemExit from sys.exit *)
Arguments Ret {A} a.
Arguments Raise {A} e.
Arguments Exit {A} code.

Definition M (A : Type) : Type := State -> outcome A * State.

Definition ret {A} (a : A) : M A := fun st => (Ret a, st).

Definition bind {A B} (m : M A) (f : A -> M B) : M B :=
  fun st =>
    match m st with
    | (Ret a, st') => f a st'
    | (Raise e, st') => (Raise e, st')
    | (Exit c, st') => (Exit c, st')
    end.

Notation "x <- m ;; k" := (bind m (fun x => k))
  (at level 61, m at next level, right associativity).
Notation "m ;;; k" := (bind m (fun _ => k))
  (at level 61, right associativity).

Definition raise {A} (e : exn) : M A := fun st => (Raise e, st).

Definition lift {A} (r : result A) : M A :=
  match r with
  | Ok a => ret a
  | Err e => raise e
  end.

(** [sys.exit(code)]. *)
Definition sys_exit {A} (code : Z) : M A := fun st => (Exit code, st).

(** [try: body / except Exception as e: handler e]; SystemExit passes. *)
Definition try_except {A} (body : M A) (handler : exn -> M A) : M A :=
  fun st =>
    match body st with
    | (Raise e, st') => handler e st'
    | r => r
    end.

Definition print (line : string) : M unit :=
  fun st => (Ret tt, MkState (stdout st ++ [line]) (calls st) (writes st)).

(** [with open(path, "a") as f: f.write(text)]. *)
Definition append_file (w : World) (path text : string) : M unit :=
  fun st =>
    match open_append w path with
    | Some e => (Raise e, st)
    | None =>
        (Ret tt, MkState (stdout st) (calls st) (writes st ++ [(path, text)]))
    end.

(** [os.environ[key]]. *)
Definition environ_item (w : World) (key : string) : M string :=
  match environ w key with
  | Some v => ret v
  | None => raise (Exn "KeyError" ("'" ++ key ++ "'"))
  end.

Definition BOT_COMMIT_MSG : string := "chore: enforce correct rc version".
Definition BOT_FOOTER_TAG : string := "Release-As:".

Definition run_git_command (w : World) (args : list string)
  (fail_on_error : bool) : M (option string) :=
  fun st =>
    let cmd := "git" :: args in
    let st' := MkState (stdout st) (calls st ++ [cmd]) (writes st) in
    match subprocess_run w cmd fail_on_error with
    | inr out => (Ret (Some (strip out)), st')
    | inl e =>
        if is_CalledProcessError e then (Ret None, st') else (Raise e, st')
    end.

(** ** find_baseline_tag *)

Definition find_baseline_tag (w : World) : M (option string * bool) :=
  tags_output <-
    run_git_command w ["tag"; "-l"; "v*"; "--sort=-creatordate"] false ;;
  if negb (truthy tags_output) then
    print "INFO: No tags found. Assuming 0.0.0 baseline." ;;;
    ret (None, true)
  else
    let tag := hd "" (split_char LF (match tags_output with
                                     | Some t => t
                                     | None => ""
                                     end)) in
    if str_in "-rc" tag then
      print ("INFO: Baseline found (RC): " ++ tag) ;;;
      ret (Some tag, false)
    else
      print ("INFO: Baseline found (Stable): " ++ tag) ;;;
      ret (Some tag, true).

(** ** get_commit_depth *)

Definition rev_range (baseline_tag : option string) : string :=
  match baseline_tag with
  | Some t => if truthy baseline_tag then t ++ "..HEAD" else "HEAD"
  | None => "HEAD"
  end.

Definition scope_regex (i : nat) : regex :=
  ROpt (RGroup i (RLit "(" @@ RStar CDot @@ RLit ")")).

Definition release_regex : regex :=
  RBol @@ RLit "chore" @@ scope_regex 1 @@ RLit ": release".

Definition is_some {A} (o : option A) : bool :=
  match o with
  | Some _ => true
  | None => false
  end.

(** The loop over the subjects, [real_commits] being the list built so far. *)
Fixpoint collect_real (subjects real_commits : list string) : list string :=
  match subjects with
  | [] => real_commits
  | s :: rest =>
      if str_in BOT_FOOTER_TAG s || str_in BOT_COMMIT_MSG s then
        collect_real rest real_commits
      else if is_some (re_match release_regex s) then
        collect_real rest real_commits
      else
        collect_real rest (real_commits ++ [s])
  end.

Definition get_commit_depth (w : World) (baseline_tag : option string)
  : M Z :=
  raw_subjects <-
    run_git_command w
      ["log"; rev_range baseline_tag; "--first-parent"; "--pretty=format:%s"]
      false ;;
  match raw_subjects with
  | Some raw =>
      if negb (truthy raw_subjects) then ret 0
      else ret (Z.of_nat (List.length (collect_real (split_char LF raw) [])))
  | None => ret 0
  end.

(** ** analyze_impact *)

Definition breaking_regex : regex :=
  RBol @@ RGroup 1 (RAlt (RLit "feat") (RAlt (RLit "fix") (RLit "refactor")))
       @@ scope_regex 2 @@ RLit "!:".

Definition feat_regex : regex :=
  RBol @@ RLit "feat" @@ scope_regex 1 @@ RLit ":".

Definition analyze_impact (w : World) (baseline_tag : option string)
  : M (bool * bool) :=
  logs_opt <-
    run_git_command w ["log"; rev_range baseline_tag; "--pretty=format:%B"]
      false ;;
  match logs_opt with
  | Some logs =>
      if negb (truthy logs_opt) then ret (false, false)
      else
        let is_breaking :=
          is_some (re_search true breaking_regex logs)
          || str_in "BREAKING CHANGE" logs in
        let is_feat := is_some (re_search true feat_regex logs) in
        ret (is_breaking, is_feat)
  | None => ret (false, false)
  end.

(** ** main *)

Definition rc_suffix_regex : regex := RLit "-rc" @@ RStar CDot.

(** The text an f-string field renders for a tag that may be [None]. *)
Definition fmt_opt (tag : option string) : string :=
  match tag with
  | Some t => t
  | None => "None"
  end.

Definition stable_version_of (tag : option string) : string :=
  match tag with
  | Some t =>
      if negb (truthy tag) then "0.1.0"
      else
        let clean_tag := re_sub rc_suffix_regex "" t in
        lstrip_char "v" clean_tag
  | None => "0.1.0"
  end.

Definition NL : string := String LF "".

Definition on_stable_branch (branch : option string) : bool :=
  match branch with
  | Some b => (b =? "main")%string || (b =? "master")%string
  | None => false
  end.

Definition main (w : World) : M unit :=
  let branch := environ w "GITHUB_REF_NAME" in
  if on_stable_branch branch then
    (* the branch ends in [return], its handler in [sys.exit(0)] *)
    try_except
      ( r <- find_baseline_tag w ;;
        let tag := fst r in
        let stable_version := stable_version_of tag in
        print ("INFO: Detected tag " ++ fmt_opt tag ++ ", promoting to "
                 ++ stable_version) ;;;
        path <- environ_item w "GITHUB_OUTPUT" ;;
        append_file w path ("next_version=" ++ stable_version ++ NL) )
      (fun e =>
         print ("CRITICAL ERROR (stable): " ++ exn_str e) ;;;
         sys_exit 0)
  else
    try_except
      ( r <- find_baseline_tag w ;;
        let '(tag, from_stable) := r in
        depth <- get_commit_depth w tag ;;
        if depth =? 0 then
          print "INFO: No user commits found since baseline. Exiting."
        else
          v <- lift (parse_semver tag) ;;
          let '(major, minor, patch, rc) := v in
          impact <- analyze_impact w tag ;;
          let '(is_breaking, is_feat) := impact in
          let next_ver :=
            calculate_next_version major minor patch rc depth
              is_breaking is_feat from_stable in
          path <- environ_item w "GITHUB_OUTPUT" ;;
          append_file w path ("next_version=" ++ next_ver ++ NL) )
      (fun e =>
         print ("CRITICAL ERROR: " ++ exn_str e) ;;;
         sys_exit 0).

(** ** The module body

    The statements of [rc_align.py] at top level, in file order.  Imports,
    assignments and [def]s bind a name; an expression statement that is a
    bare name looks it up; the closing [if __name__ == "__main__"] calls. *)

Inductive toplevel : Type :=
| TImport (name : string)
| TAssign (name : string)
| TDef (name : string)
| TName (name : string)
| TIfMain (callee : string).

Definition rc_align_py : list toplevel :=
  [ TImport "os"; TImport "re"; TImport "subprocess"; TImport "sys";
    TAssign "BOT_COMMIT_MSG"; TAssign "BOT_FOOTER_TAG";
    TDef "run_git_command";
    TName "e";
    TDef "find_baseline_tag"; TDef "get_commit_depth"; TDef "parse_semver";
    TDef "analyze_impact"; TDef "calculate_next_version"; TDef "main";
    TIfMain "main" ].

(** The built-in names the file refers to. *)
Definition builtins : list string :=
  ["print"; "len"; "bool"; "int"; "open"; "Exception"; "__name__"].

Definition bound (name : string) (ns : list string) : bool :=
  existsb (String.eqb name) ns || existsb (String.eqb name) builtins.

Definition name_error {A} (name : string) : M A :=
  raise (Exn "NameError" ("name '" ++ name ++ "' is not defined")).

(** The functions a top-level call can reach. *)
Definition call (w : World) (callee : string) : M unit :=
  if (callee =? "main")%string then main w else ret tt.

Fixpoint exec_module (w : World) (body : list toplevel) (ns : list string)
  : M unit :=
  match body with
  | [] => ret tt
  | TImport n :: rest | TAssign n :: rest | TDef n :: rest =>
      exec_module w rest (n :: ns)
  | TName n :: rest =>
      if bound n ns then exec_module w rest ns else name_error n
  | TIfMain f :: rest =>
      if bound f ns then call w f ;;; exec_module w rest ns
      else name_error f
  end.

(** [python rc_align.py]. *)
Definition run_script (w : World) : M unit := exec_module w rc_align_py [].

(** The status the interpreter exits with. *)
Definition exit_status {A} (o : outcome A) : Z :=
  match o with
  | Ret _ => 0
  | Exit c => c
  | Raise _ => 1
  end.

Definition st0 : State := MkState [] [] [].

(** ** Vocabulary of the statements *)

(** [needle] occurs in [hay]. *)
Definition Contains (needle hay : string) : Prop :=
  exists pre post, hay = pre ++ needle ++ post.

(** A non-empty run of decimal digits. *)
Definition Digits (s : string) : Prop :=
  s <> "" /\ str_forall is_digit s = true.

(** The characters a rendered integer or a bare [a.b.c] triple is made of. *)
Definition plain_char (c : ascii) : bool :=
  is_digit c || (c =? "-")%char || (c =? ".")%char.

(** The character before the position reached after reading [l]. *)
Fixpoint last_of (l : string) (prev : option ascii) : option ascii :=
  match l with
  | "" => prev
  | String c l' => last_of l' (Some c)
  end.

(** [tail] is empty or begins with a character outside [p]. *)
Definition stops (p : ascii -> bool) (tail : string) : Prop :=
  match tail with
  | "" => True
  | String c _ => p c = false
  end.

(** The two tag shapes, over runs of digits. *)
Definition stable_tag (a b c : string) : string :=
  "v" ++ a ++ "." ++ b ++ "." ++ c.

Definition rc_tag (a b c d : string) : string :=
  "v" ++ a ++ "." ++ b ++ "." ++ c ++ "-rc." ++ d.

Definition StableShape (t : string) : Prop :=
  exists a b c, Digits a /\ Digits b /\ Digits c /\ t = stable_tag a b c.

Definition RcShape (t : string) : Prop :=
  exists a b c d,
    Digits a /\ Digits b /\ Digits c /\ Digits d /\ t = rc_tag a b c d.

(** [t] has exactly the shape [v<M>.<N>.<P>] or [v<M>.<N>.<P>-rc.<R>]. *)
Definition SemverShape (t : string) : Prop := StableShape t \/ RcShape t.


(** No line feed in [s]. *)
Definition one_line (s : string) : bool := str_forall (cmatch CDot) s.

(** Nothing, or a parenthesised scope. *)
Definition OptionalScope (sc : string) : Prop :=
  sc = "" \/ exists inner, sc = "(" ++ inner ++ ")".

(** [line] starts with one of [kws], optionally scoped, followed by [tl]. *)
Definition Header (kws : list string) (tl line : string) : Prop :=
  exists kw sc rest,
    In kw kws /\ OptionalScope sc /\ line = kw ++ sc ++ tl ++ rest.

Definition BreakingHeader : string -> Prop :=
  Header ["feat"; "fix"; "refactor"] "!:".

Definition FeatHeader : string -> Prop := Header ["feat"] ":".

Definition ReleaseSubject : string -> Prop := Header ["chore"] ": release".

(** A subject the depth count leaves out. *)
Definition Excluded (s : string) : Prop :=
  Contains BOT_FOOTER_TAG s \/ Contains BOT_COMMIT_MSG s \/ ReleaseSubject s.

(** [real_count l n]: [n] subjects of [l] are not [Excluded]. *)
Inductive real_count : list string -> nat -> Prop :=
| real_count_nil : real_count [] 0
| real_count_skip s l n :
    Excluded s -> real_count l n -> real_count (s :: l) n
| real_count_keep s l n :
    ~ Excluded s -> real_count l n -> real_count (s :: l) (S n).

(** The same header, read on a text that may run over several lines. *)
Definition HeadMatch (kws : list string) (tl s : string) : Prop :=
  exists kw sc rest,
    In kw kws /\ OptionalScope sc /\ one_line sc = true /\
    s = kw ++ sc ++ tl ++ rest.

(** The value of an optional text, absent read as empty. *)
Definition text_of (o : option string) : string :=
  match o with
  | Some t => t
  | None => ""
  end.

(** The text up to the first line feed. *)
Definition first_line (s : string) : string := hd "" (split_char LF s).

(** The two skip tests of the depth loop, taken together. *)
Definition skipped (s : string) : bool :=
  str_in BOT_FOOTER_TAG s || str_in BOT_COMMIT_MSG s
  || is_some (re_match release_regex s).

(** ** Sample surroundings

    A repository whose three queries answer [tags], [subjects] and
    [bodies], on branch [branch], with a writable output file. *)
Definition sample_git (tags subjects bodies : string) (cmd : list string)
  : exn + string :=
  match cmd with
  | [_; "tag"; _; _; _] => inr tags
  | [_; "log"; _; "--first-parent"; _] => inr subjects
  | [_; "log"; _; _] => inr bodies
  | _ => inl (Exn "FileNotFoundError" "No such file or directory")
  end.

Definition sample_world (branch : option string)
  (tags subjects bodies : string) : World :=
  MkWorld
    (fun key =>
       if (key =? "GITHUB_REF_NAME")%string then branch
       else if (key =? "GITHUB_OUTPUT")%string then Some "/tmp/github_output"
       else None)
    (fun cmd _ => sample_git tags subjects bodies cmd)
    (fun _ => None).

(** [out] is [s] with everything from the first occurrence of [needle]
    onward deleted ([s] itself when [needle] does not occur). *)
Definition CutAtFirst (needle s out : string) : Prop :=
  (~ Contains needle s /\ out = s)
  \/ (exists post,
         s = out ++ needle ++ post /\
         forall pre' post',
           s = pre' ++ needle ++ post' ->
           (String.length out <= String.length pre')%nat).

Fixpoint repeat_char (c : ascii) (n : nat) : string :=
  match n with
  | O => ""
  | S n' => String c (repeat_char c n')
  end.

(** [out] is [s] without its leading run of [c]. *)
Definition StripLeading (c : ascii) (s out : string) : Prop :=
  exists n, s = repeat_char c n ++ out /\ startswith (String c "") out = false.

(** The part of [s] before the first occurrence of [needle]. *)
Fixpoint before (needle s : string) : string :=
  if startswith needle s then ""
  else match s with
       | "" => ""
       | String c s' => String c (before needle s')
       end.

(** A computation that never ends in [sys.exit]. *)
Definition no_exit {A} (m : M A) : Prop :=
  forall st c st', m st <> (Exit c, st').


(** ** Vocabulary of the further properties *)

(** Any character but the letter r. *)
Definition not_r (c : ascii) : bool := negb (c =? "r")%char.

(** Any character but the hyphen. *)
Definition not_hyphen (c : ascii) : bool := negb (c =? "-")%char.

(** Precedence of parsed versions: major, then minor, then patch, then rc. *)
Definition ver_lt (x y : Z * Z * Z * Z) : Prop :=
  let '(a, b, c, d) := x in
  let '(a', b', c', d') := y in
  a < a' \/ (a = a' /\ (b < b' \/ (b = b' /\ (c < c' \/ (c = c' /\ d < d'))))).

(** The three commands the script runs. *)
Definition tag_query : list string :=
  ["git"; "tag"; "-l"; "v*"; "--sort=-creatordate"].

Definition subject_query (tag : option string) : list string :=
  ["git"; "log"; rev_range tag; "--first-parent"; "--pretty=format:%s"].

Definition body_query (tag : option string) : list string :=
  ["git"; "log"; rev_range tag; "--pretty=format:%B"].

(** The line [main] appends for version [v]. *)
Definition output_line (v : string) : string := "next_version=" ++ v ++ NL.

(** The four numbers of the version [calculate_next_version] renders. *)
Definition next_numbers
  (major minor patch rc depth : Z) (is_breaking is_feat from_stable : bool)
  : Z * Z * Z * Z :=
  if is_breaking then (major + 1, 0, 0, depth)
  else if is_feat then
    if from_stable || (0 <? patch) then (major, minor + 1, 0, depth)
    else (major, minor, patch, rc + depth)
  else if from_stable then (major, minor, patch + 1, depth)
  else (major, minor, patch, rc + depth).

(** The text [a.b.c-rc.d]. *)
Definition rc_version (v : Z * Z * Z * Z) : string :=
  let '(a, b, c, d) := v in
  py_str a ++ "." ++ py_str b ++ "." ++ py_str c ++ "-rc." ++ py_str d.

(* ================================================================== *)
(** * Part II: properties                                               *)
(* ================================================================== *)


(** ** Strings: basic facts *)

Lemma app_assoc_s (a b c : string) : (a ++ b) ++ c = a ++ (b ++ c).
Proof. induction a as [|x a IH]; simpl; [reflexivity | now rewrite IH]. Qed.

Lemma app_nil_r_s (a : string) : a ++ "" = a.
Proof. induction a as [|x a IH]; simpl; [reflexivity | now rewrite IH]. Qed.

Lemma length_app_s (a b : string) :
  String.length (a ++ b) = (String.length a + String.length b)%nat.
Proof. induction a as [|x a IH]; simpl; [reflexivity | now rewrite IH]. Qed.

Lemma substring_0_app (a b : string) :
  substring 0 (String.length a) (a ++ b) = a.
Proof. induction a as [|x a IH]; simpl; [now destruct b | now rewrite IH]. Qed.

Lemma taken_app (a b : string) : taken (a ++ b) b = a.
Proof.
  unfold taken. rewrite length_app_s.
  replace (String.length a + String.length b - String.length b)%nat
    with (String.length a) by lia.
  apply substring_0_app.
Qed.

Lemma str_forall_app (p : ascii -> bool) (a b : string) :
  str_forall p (a ++ b) = str_forall p a && str_forall p b.
Proof.
  induction a as [|x a IH]; simpl; [reflexivity|].
  now rewrite IH, andb_assoc.
Qed.

Lemma startswith_iff (p s : string) :
  startswith p s = true <-> exists r, s = p ++ r.
Proof.
  revert s. induction p as [|a p IH]; intros s; simpl.
  - split; [intros _; now exists s | reflexivity].
  - destruct s as [|b s].
    + split; [discriminate | intros (r & H); discriminate].
    + destruct (Ascii.eqb_spec a b) as [->|Hab].
      * rewrite IH. split; intros (r & H); exists r; congruence.
      * split; [discriminate | intros (r & H); congruence].
Qed.

Lemma str_in_iff (needle hay : string) :
  str_in needle hay = true <-> Contains needle hay.
Proof.
  unfold Contains. induction hay as [|c hay IH].
  - simpl. destruct (startswith needle "") eqn:E.
    + apply startswith_iff in E. destruct E as (r & E).
      split; [intros _; now exists "", r | reflexivity].
    + split; [discriminate|]. intros (pre & post & H).
      destruct pre; [|discriminate]. simpl in H.
      assert (startswith needle "" = true)
        by (apply startswith_iff; now exists post).
      congruence.
  - cbn [str_in]. destruct (startswith needle (String c hay)) eqn:E.
    + apply startswith_iff in E. destruct E as (r & E).
      split; [intros _; now exists "", r | reflexivity].
    + rewrite IH. split.
      * intros (pre & post & ->). now exists (String c pre), post.
      * intros (pre & post & H). destruct pre as [|x pre].
        -- simpl in H.
           assert (startswith needle (String c hay) = true)
             by (apply startswith_iff; now exists post).
           congruence.
        -- simpl in H. injection H as _ ->. now exists pre, post.
Qed.

(** ** Integers as text: round trip *)

Lemma digit_cases (d : Z) :
  0 <= d < 10 ->
  d = 0 \/ d = 1 \/ d = 2 \/ d = 3 \/ d = 4 \/
  d = 5 \/ d = 6 \/ d = 7 \/ d = 8 \/ d = 9.
Proof. lia. Qed.

Lemma digit_val_char (d : Z) : 0 <= d < 10 -> digit_val (digit_char d) = d.
Proof.
  intros H. destruct (digit_cases d H) as [E|[E|[E|[E|[E|[E|[E|[E|[E|E]]]]]]]]];
    subst d; reflexivity.
Qed.

Lemma is_digit_char (d : Z) : 0 <= d < 10 -> is_digit (digit_char d) = true.
Proof.
  intros H. destruct (digit_cases d H) as [E|[E|[E|[E|[E|[E|[E|[E|[E|E]]]]]]]]];
    subst d; reflexivity.
Qed.

Lemma str_digits_acc (fuel : nat) : forall n acc,
  str_digits fuel n acc = str_digits fuel n "" ++ acc.
Proof.
  induction fuel as [|f IH]; intros n acc; simpl; [reflexivity|].
  destruct (n <? 10); [reflexivity|].
  rewrite (IH (n / 10) (String _ acc)), (IH (n / 10) (String _ "")).
  now rewrite app_assoc_s.
Qed.

Lemma int_acc_snoc (s : string) : forall acc c,
  int_acc acc (s ++ String c "") = 10 * int_acc acc s + digit_val c.
Proof.
  induction s as [|x s IH]; intros acc c; simpl; [reflexivity | apply IH].
Qed.

Lemma str_digits_nonempty (fuel : nat) (n : Z) :
  str_digits (S fuel) n "" <> "".
Proof.
  simpl. destruct (n <? 10); [discriminate|].
  rewrite str_digits_acc. destruct (str_digits fuel (n / 10) ""); discriminate.
Qed.

Lemma str_digits_sound (fuel : nat) : forall n,
  0 <= n < 2 ^ Z.of_nat fuel ->
  int_acc 0 (str_digits fuel n "") = n /\
  str_forall is_digit (str_digits fuel n "") = true.
Proof.
  induction fuel as [|f IH]; intros n Hn.
  - simpl in Hn. assert (n = 0) by lia. subst. split; reflexivity.
  - assert (Hm : 0 <= n mod 10 < 10) by (apply Z.mod_pos_bound; lia).
    simpl. destruct (Z.ltb_spec n 10) as [Hlt|Hge].
    + simpl. rewrite Z.mod_small by lia. rewrite digit_val_char by lia.
      rewrite is_digit_char by lia. split; [lia | reflexivity].
    + rewrite str_digits_acc, int_acc_snoc, str_forall_app.
      assert (Hq : 0 <= n / 10 < 2 ^ Z.of_nat f).
      { rewrite Nat2Z.inj_succ, Z.pow_succ_r in Hn by lia.
        split; [apply Z.div_pos; lia|].
        apply Z.div_lt_upper_bound; lia. }
      destruct (IH _ Hq) as [Hv Hd]. rewrite Hv, Hd. cbn [str_forall andb].
      rewrite digit_val_char, is_digit_char by lia.
      split; [|reflexivity].
      pose proof (Z.div_mod n 10 ltac:(lia)). lia.
Qed.

Lemma fuel_enough (n : Z) :
  0 <= n -> n < 2 ^ Z.of_nat (S (Z.to_nat (Z.log2 n))).
Proof.
  intros Hn. rewrite Nat2Z.inj_succ, Z2Nat.id by apply Z.log2_nonneg.
  destruct (Z.eq_dec n 0) as [->|Hz]; [reflexivity|].
  apply Z.log2_spec. lia.
Qed.

Lemma py_str_nonneg (n : Z) : 0 <= n -> py_str n = str_nonneg n.
Proof.
  intros H. unfold py_str. destruct (Z.ltb_spec n 0); [lia | reflexivity].
Qed.

(** [int(str(n)) = n], and [str(n)] is a non-empty run of digits. *)
Lemma py_int_str (n : Z) : 0 <= n -> py_int (py_str n) = n.
Proof.
  intros H. rewrite py_str_nonneg by assumption.
  apply str_digits_sound. split; [assumption | now apply fuel_enough].
Qed.

Lemma py_str_digits (n : Z) : 0 <= n -> all_digits (py_str n) = true.
Proof.
  intros H. rewrite py_str_nonneg by assumption. unfold all_digits, str_nonneg.
  rewrite (proj2 (str_digits_sound _ n (conj H (fuel_enough n H)))).
  pose proof (str_digits_nonempty (Z.to_nat (Z.log2 n)) n) as Hne.
  destruct (str_digits _ n ""); [congruence | reflexivity].
Qed.

(** ** calculate_next_version *)

Example breaking_from_stable_2_5_1 :
  calculate_next_version 2 5 1 0 1 true true true = "3.0.0-rc.1".
Proof. reflexivity. Qed.

Example feat_from_stable_1_2_3 :
  calculate_next_version 1 2 3 0 1 false true true = "1.3.0-rc.1".
Proof. reflexivity. Qed.

Example fix_from_rc_1_3_0 :
  calculate_next_version 1 3 0 2 1 false false false = "1.3.0-rc.3".
Proof. reflexivity. Qed.

(** C1. With [is_breaking] set, the result is [(major+1).0.0-rc.<depth>]
    whatever [minor], [patch], [rc], [is_feat] and [from_stable] are: the
    breaking case is decided first, minor and patch are reset to 0 and the
    rc count is [depth], not [rc + depth]. *)
Theorem breaking_takes_precedence :
  forall major minor patch rc depth is_feat from_stable,
    calculate_next_version major minor patch rc depth true is_feat from_stable
    = py_str (major + 1) ++ ".0.0-rc." ++ py_str depth.
Proof. intros. reflexivity. Qed.

(** C7. With [is_breaking] clear and [is_feat] set: from a stable baseline
    or with [patch > 0] the minor is bumped and the rc count restarts at
    [depth]; otherwise the version triple is kept and the rc count grows by
    [depth].  Baseline v1.2.0-rc.2 with one feature commit gives 1.2.0-rc.3. *)
Theorem feat_minor_bump_or_rc_increment :
  forall major minor patch rc depth from_stable,
    (from_stable = true \/ 0 < patch ->
     calculate_next_version major minor patch rc depth false true from_stable
     = py_str major ++ "." ++ py_str (minor + 1) ++ ".0-rc." ++ py_str depth)
    /\
    (~ (from_stable = true \/ 0 < patch) ->
     calculate_next_version major minor patch rc depth false true from_stable
     = py_str major ++ "." ++ py_str minor ++ "." ++ py_str patch
         ++ "-rc." ++ py_str (rc + depth)).
Proof.
  intros. unfold calculate_next_version. split; intros H.
  - destruct H as [-> | H]; [reflexivity|].
    apply Z.ltb_lt in H. rewrite H, orb_true_r. reflexivity.
  - destruct from_stable; [exfalso; apply H; now left|].
    destruct (Z.ltb_spec 0 patch); [exfalso; apply H; now right | reflexivity].
Qed.

Lemma feat_minor_bump_or_rc_increment_witness :
  ~ (false = true \/ 0 < 0) /\
  calculate_next_version 1 2 0 2 1 false true false = "1.2.0-rc.3".
Proof.
  assert (H : ~ (false = true \/ 0 < 0)) by (intros [H | H]; [discriminate | lia]).
  split; [exact H|].
  exact (proj2 (feat_minor_bump_or_rc_increment 1 2 0 2 1 false) H).
Defined.

(** Rendered integers and bare triples are made of plain characters only. *)
Lemma py_str_plain (n : Z) : str_forall plain_char (py_str n) = true.
Proof.
  assert (D : forall m, 0 <= m -> str_forall plain_char (str_nonneg m) = true).
  { intros m Hm. pose proof (py_str_digits m Hm) as H.
    rewrite py_str_nonneg in H by assumption.
    unfold all_digits in H. apply andb_true_iff in H. destruct H as [_ H].
    revert H. generalize (str_nonneg m) as s.
    induction s as [|c s IH]; simpl; [reflexivity|].
    intros H. apply andb_true_iff in H. destruct H as [Hc Hs].
    rewrite (IH Hs). unfold plain_char. now rewrite Hc. }
  unfold py_str. destruct (Z.ltb_spec n 0).
  - simpl. apply D. lia.
  - now apply D.
Qed.

Lemma rc_suffix_not_plain (a d : string) :
  str_forall plain_char (a ++ "-rc." ++ d) = false.
Proof. rewrite str_forall_app. simpl. apply andb_false_r. Qed.

Lemma triple_plain (x y z : Z) :
  str_forall plain_char (py_str x ++ "." ++ py_str y ++ "." ++ py_str z) = true.
Proof.
  rewrite !str_forall_app, !py_str_plain. reflexivity.
Qed.

(** C9. For non-negative [major], [minor], [patch], [rc] and [depth >= 1]
    the result is [a.b.c-rc.K] with [K >= 1], and it is never a bare
    [x.y.z] triple. *)
Theorem result_is_release_candidate :
  forall major minor patch rc depth is_breaking is_feat from_stable,
    0 <= major -> 0 <= minor -> 0 <= patch -> 0 <= rc -> 1 <= depth ->
    (exists a b c K,
        0 <= a /\ 0 <= b /\ 0 <= c /\ 1 <= K /\
        calculate_next_version major minor patch rc depth
          is_breaking is_feat from_stable
        = py_str a ++ "." ++ py_str b ++ "." ++ py_str c
            ++ "-rc." ++ py_str K)
    /\
    (forall x y z,
        calculate_next_version major minor patch rc depth
          is_breaking is_feat from_stable
        <> py_str x ++ "." ++ py_str y ++ "." ++ py_str z).
Proof.
  intros major minor patch rc depth b f s Hma Hmi Hpa Hrc Hd.
  assert (E : exists a b0 c K,
             0 <= a /\ 0 <= b0 /\ 0 <= c /\ 1 <= K /\
             calculate_next_version major minor patch rc depth b f s
             = py_str a ++ "." ++ py_str b0 ++ "." ++ py_str c
                 ++ "-rc." ++ py_str K).
  { unfold calculate_next_version.
    destruct b.
    { exists (major + 1), 0, 0, depth. repeat split; try lia. }
    destruct f.
    { destruct (s || (0 <? patch)).
      - exists major, (minor + 1), 0, depth. repeat split; try lia.
      - exists major, minor, patch, (rc + depth). repeat split; try lia. }
    destruct s.
    - exists major, minor, (patch + 1), depth. repeat split; try lia.
    - exists major, minor, patch, (rc + depth). repeat split; try lia. }
  split; [exact E|].
  destruct E as (a & b0 & c & K & _ & _ & _ & _ & ->).
  intros x y z Heq.
  pose proof (triple_plain x y z) as Hp. rewrite <- Heq in Hp.
  replace (py_str a ++ "." ++ py_str b0 ++ "." ++ py_str c ++ "-rc." ++ py_str K)
    with ((py_str a ++ "." ++ py_str b0 ++ "." ++ py_str c) ++ "-rc." ++ py_str K)
    in Hp by (now rewrite !app_assoc_s).
  rewrite rc_suffix_not_plain in Hp. discriminate.
Qed.

Lemma result_is_release_candidate_witness :
  (exists a b c K,
      0 <= a /\ 0 <= b /\ 0 <= c /\ 1 <= K /\
      calculate_next_version 1 2 3 0 1 false true true
      = py_str a ++ "." ++ py_str b ++ "." ++ py_str c ++ "-rc." ++ py_str K)
  /\
  (forall x y z,
      calculate_next_version 1 2 3 0 1 false true true
      <> py_str x ++ "." ++ py_str y ++ "." ++ py_str z).
Proof.
  apply (result_is_release_candidate 1 2 3 0 1 false true true); lia.
Defined.

(** ** The matcher: one lemma per construct *)

Section Matcher.
Context {A : Type}.
Implicit Types (k : option ascii -> string -> option A).

Lemma lit_k_app l : forall prev s k,
  lit_k l prev (l ++ s) k = k (last_of l prev) s.
Proof.
  induction l as [|a l IH]; intros prev s k; simpl; [reflexivity|].
  rewrite Ascii.eqb_refl. apply IH.
Qed.

Lemma lit_k_inv l : forall prev s k x,
  lit_k l prev s k = Some x ->
  exists s', s = l ++ s' /\ k (last_of l prev) s' = Some x.
Proof.
  induction l as [|a l IH]; intros prev s k x H; simpl in *.
  - now exists s.
  - destruct s as [|b s]; [discriminate|].
    destruct (Ascii.eqb_spec a b) as [->|]; [|discriminate].
    destruct (IH _ _ _ _ H) as (s' & -> & Hk). now exists s'.
Qed.

Lemma star_k_inv p : forall s prev k x,
  star_k p prev s k = Some x ->
  exists ds rest,
    s = ds ++ rest /\ str_forall p ds = true /\
    k (last_of ds prev) rest = Some x.
Proof.
  induction s as [|c s IH]; intros prev k x H; simpl in H.
  - exists "", "". auto.
  - destruct (p c) eqn:Hc.
    + destruct (star_k p (Some c) s k) as [y|] eqn:Hs.
      * injection H as ->.
        destruct (IH _ _ _ Hs) as (ds & rest & -> & Hp & Hk).
        exists (String c ds), rest. simpl. rewrite Hc. auto.
      * exists "", (String c s). auto.
    + exists "", (String c s). auto.
Qed.

(** Greedy: when the run cannot be extended and the continuation accepts
    after it, that is the answer. *)
Lemma star_k_greedy p : forall ds prev rest k x,
  str_forall p ds = true -> stops p rest ->
  k (last_of ds prev) rest = Some x ->
  star_k p prev (ds ++ rest) k = Some x.
Proof.
  induction ds as [|c ds IH]; intros prev rest k x Hp Hstop Hk; simpl in *.
  - destruct rest as [|c rest]; simpl in *; [assumption|].
    now rewrite Hstop.
  - apply andb_true_iff in Hp. destruct Hp as [Hc Hp]. rewrite Hc.
    now rewrite (IH _ _ _ _ Hp Hstop Hk).
Qed.

(** Backtracking: any split the continuation accepts yields a match. *)
Lemma star_k_complete p : forall ds prev rest k,
  str_forall p ds = true ->
  is_some (k (last_of ds prev) rest) = true ->
  is_some (star_k p prev (ds ++ rest) k) = true.
Proof.
  induction ds as [|c ds IH]; intros prev rest k Hp Hk; simpl in *.
  - destruct rest as [|c rest]; simpl; [assumption|].
    destruct (p c); [|assumption].
    destruct (star_k p (Some c) rest k); [reflexivity | assumption].
  - apply andb_true_iff in Hp. destruct Hp as [Hc Hp]. rewrite Hc.
    specialize (IH (Some c) rest k Hp Hk).
    destruct (star_k p (Some c) (ds ++ rest) k); [reflexivity | discriminate].
Qed.
End Matcher.

Section MatcherGroups.
Context {A : Type}.
Implicit Types (k : option ascii -> string -> groups -> option A).

Lemma plus_inv ml cl prev s caps k x :
  mexec ml (RPlus cl) prev s caps k = Some x ->
  exists ds rest,
    ds <> "" /\ s = ds ++ rest /\ str_forall (cmatch cl) ds = true /\
    k (last_of ds prev) rest caps = Some x.
Proof.
  simpl. destruct s as [|c s]; [discriminate|].
  destruct (cmatch cl c) eqn:Hc; [|discriminate].
  intros H. apply star_k_inv in H.
  destruct H as (ds & rest & -> & Hp & Hk).
  exists (String c ds), rest. simpl. rewrite Hc.
  repeat split; [discriminate | assumption | assumption].
Qed.

Lemma plus_greedy ml cl ds prev rest caps k x :
  ds <> "" -> str_forall (cmatch cl) ds = true -> stops (cmatch cl) rest ->
  k (last_of ds prev) rest caps = Some x ->
  mexec ml (RPlus cl) prev (ds ++ rest) caps k = Some x.
Proof.
  intros Hne Hp Hstop Hk. destruct ds as [|c ds]; [congruence|].
  simpl in *. apply andb_true_iff in Hp. destruct Hp as [Hc Hp]. rewrite Hc.
  now apply star_k_greedy.
Qed.

Lemma alt_inv ml r1 r2 prev s caps k x :
  mexec ml (RAlt r1 r2) prev s caps k = Some x ->
  mexec ml r1 prev s caps k = Some x \/ mexec ml r2 prev s caps k = Some x.
Proof.
  simpl. destruct (mexec ml r1 prev s caps k); intros H; [left | right];
    assumption.
Qed.

Lemma alt_complete ml r1 r2 prev s caps k :
  is_some (mexec ml r1 prev s caps k) = true \/
  is_some (mexec ml r2 prev s caps k) = true ->
  is_some (mexec ml (RAlt r1 r2) prev s caps k) = true.
Proof.
  simpl. destruct (mexec ml r1 prev s caps k); intros [H | H];
    try reflexivity; try discriminate; assumption.
Qed.

Lemma opt_inv ml r prev s caps k x :
  mexec ml (ROpt r) prev s caps k = Some x ->
  mexec ml r prev s caps k = Some x \/ k prev s caps = Some x.
Proof.
  simpl. destruct (mexec ml r prev s caps k); intros H; [left | right];
    assumption.
Qed.

Lemma opt_complete ml r prev s caps k :
  is_some (mexec ml r prev s caps k) = true \/
  is_some (k prev s caps) = true ->
  is_some (mexec ml (ROpt r) prev s caps k) = true.
Proof.
  simpl. destruct (mexec ml r prev s caps k); intros [H | H];
    try reflexivity; try discriminate; assumption.
Qed.
End MatcherGroups.

Lemma at_eol_inv (s : string) : at_eol false s = true -> s = "" \/ s = NL.
Proof.
  destruct s as [|c s]; [now left|]. simpl. intros H.
  apply andb_true_iff in H. destruct H as [Hc Hs].
  apply Ascii.eqb_eq in Hc. apply String.eqb_eq in Hs. subst. now right.
Qed.

(** ** Stepping through a pattern *)

Section Steps.
Context {A : Type}.
Implicit Types (k : option ascii -> string -> groups -> option A).

Lemma mexec_seq ml r1 r2 prev s caps k :
  mexec ml (r1 @@ r2) prev s caps k
  = mexec ml r1 prev s caps (fun p s' c => mexec ml r2 p s' c k).
Proof. reflexivity. Qed.

Lemma mexec_group ml i r prev s caps k :
  mexec ml (RGroup i r) prev s caps k
  = mexec ml r prev s caps (fun p s' c => k p s' ((i, taken s s') :: c)).
Proof. reflexivity. Qed.

Lemma step_bol_inv ml r prev s caps k x :
  mexec ml (RBol @@ r) prev s caps k = Some x ->
  at_bol ml prev = true /\ mexec ml r prev s caps k = Some x.
Proof. simpl. destruct (at_bol ml prev); [auto | discriminate]. Qed.

Lemma step_bol ml r prev s caps k :
  at_bol ml prev = true ->
  mexec ml (RBol @@ r) prev s caps k = mexec ml r prev s caps k.
Proof. simpl. now intros ->. Qed.

Lemma step_lit_inv ml l r prev s caps k x :
  mexec ml (RLit l @@ r) prev s caps k = Some x ->
  exists s', s = l ++ s' /\ mexec ml r (last_of l prev) s' caps k = Some x.
Proof. simpl. apply lit_k_inv. Qed.

Lemma step_lit ml l r prev s caps k :
  mexec ml (RLit l @@ r) prev (l ++ s) caps k
  = mexec ml r (last_of l prev) s caps k.
Proof. simpl. apply lit_k_app. Qed.

Lemma last_lit_inv ml l prev s caps k x :
  mexec ml (RLit l) prev s caps k = Some x ->
  exists s', s = l ++ s' /\ k (last_of l prev) s' caps = Some x.
Proof. simpl. apply lit_k_inv. Qed.

Lemma last_lit ml l prev s caps k :
  mexec ml (RLit l) prev (l ++ s) caps k = k (last_of l prev) s caps.
Proof. simpl. apply lit_k_app. Qed.

Lemma step_digits_inv ml i r prev s caps k x :
  mexec ml (RGroup i (RPlus CDigit) @@ r) prev s caps k = Some x ->
  exists ds rest,
    Digits ds /\ s = ds ++ rest /\
    mexec ml r (last_of ds prev) rest ((i, ds) :: caps) k = Some x.
Proof.
  rewrite mexec_seq, mexec_group. intros H. apply (plus_inv ml CDigit) in H.
  destruct H as (ds & rest & Hne & -> & Hp & Hk).
  rewrite taken_app in Hk. exists ds, rest. repeat split; assumption.
Qed.

Lemma step_digits ml i r prev ds rest caps k x :
  Digits ds -> stops is_digit rest ->
  mexec ml r (last_of ds prev) rest ((i, ds) :: caps) k = Some x ->
  mexec ml (RGroup i (RPlus CDigit) @@ r) prev (ds ++ rest) caps k = Some x.
Proof.
  intros [Hne Hp] Hstop Hk. rewrite mexec_seq, mexec_group.
  apply (plus_greedy ml CDigit); try assumption.
  now rewrite taken_app.
Qed.

Lemma step_digits_end ml i r prev ds caps k x :
  Digits ds ->
  mexec ml r (last_of ds prev) "" ((i, ds) :: caps) k = Some x ->
  mexec ml (RGroup i (RPlus CDigit) @@ r) prev ds caps k = Some x.
Proof.
  intros Hd Hk. pose proof (step_digits ml i r prev ds "" caps k x Hd I Hk) as E.
  now rewrite app_nil_r_s in E.
Qed.
End Steps.

Lemma eol_accept_inv prev s caps m :
  mexec false REol prev s caps accept = Some m ->
  (s = "" \/ s = NL) /\ m = MkMatch s caps.
Proof.
  simpl. destruct (at_eol false s) eqn:He; [|discriminate].
  intros H. injection H as <-. split; [now apply at_eol_inv | reflexivity].
Qed.

(** ** parse_semver *)

Lemma Digits_all_digits (s : string) : Digits s <-> all_digits s = true.
Proof.
  unfold Digits, all_digits. split.
  - intros [Hne Hp]. rewrite Hp. destruct s; [congruence | reflexivity].
  - intros H. apply andb_true_iff in H. destruct H as [Hne Hp].
    split; [|assumption]. intros ->. discriminate.
Qed.

Lemma rc_match_inv (t : string) (m : match_obj) :
  re_match rc_regex t = Some m ->
  exists a b c d,
    Digits a /\ Digits b /\ Digits c /\ Digits d /\
    (t = rc_tag a b c d \/ t = rc_tag a b c d ++ NL) /\
    m_groups m = [(4%nat, d); (3%nat, c); (2%nat, b); (1%nat, a)].
Proof.
  unfold re_match, rc_regex. intros H.
  apply step_bol_inv in H. destruct H as [_ H].
  apply step_lit_inv in H. destruct H as (s1 & -> & H).
  apply step_digits_inv in H. destruct H as (a & s2 & Ha & -> & H).
  apply step_lit_inv in H. destruct H as (s3 & -> & H).
  apply step_digits_inv in H. destruct H as (b & s4 & Hb & -> & H).
  apply step_lit_inv in H. destruct H as (s5 & -> & H).
  apply step_digits_inv in H. destruct H as (c & s6 & Hc & -> & H).
  apply step_lit_inv in H. destruct H as (s7 & -> & H).
  apply step_digits_inv in H. destruct H as (d & s8 & Hd & -> & H).
  apply eol_accept_inv in H. destruct H as [He ->].
  exists a, b, c, d.
  split; [exact Ha|]. split; [exact Hb|]. split; [exact Hc|].
  split; [exact Hd|]. split; [|reflexivity].
  unfold rc_tag. destruct He as [-> | ->].
  - left. now rewrite app_nil_r_s.
  - right. now rewrite !app_assoc_s.
Qed.

Lemma stable_match_inv (t : string) (m : match_obj) :
  re_match stable_regex t = Some m ->
  exists a b c,
    Digits a /\ Digits b /\ Digits c /\
    (t = stable_tag a b c \/ t = stable_tag a b c ++ NL) /\
    m_groups m = [(3%nat, c); (2%nat, b); (1%nat, a)].
Proof.
  unfold re_match, stable_regex. intros H.
  apply step_bol_inv in H. destruct H as [_ H].
  apply step_lit_inv in H. destruct H as (s1 & -> & H).
  apply step_digits_inv in H. destruct H as (a & s2 & Ha & -> & H).
  apply step_lit_inv in H. destruct H as (s3 & -> & H).
  apply step_digits_inv in H. destruct H as (b & s4 & Hb & -> & H).
  apply step_lit_inv in H. destruct H as (s5 & -> & H).
  apply step_digits_inv in H. destruct H as (c & s6 & Hc & -> & H).
  apply eol_accept_inv in H. destruct H as [He ->].
  exists a, b, c.
  split; [exact Ha|]. split; [exact Hb|]. split; [exact Hc|].
  split; [|reflexivity].
  unfold stable_tag. destruct He as [-> | ->].
  - left. now rewrite app_nil_r_s.
  - right. now rewrite !app_assoc_s.
Qed.

Lemma rc_match (a b c d : string) :
  Digits a -> Digits b -> Digits c -> Digits d ->
  re_match rc_regex (rc_tag a b c d)
  = Some (MkMatch "" [(4%nat, d); (3%nat, c); (2%nat, b); (1%nat, a)]).
Proof.
  intros Ha Hb Hc Hd. unfold re_match, rc_regex, rc_tag.
  rewrite step_bol by reflexivity.
  rewrite step_lit.
  apply step_digits; [assumption | reflexivity |]. rewrite step_lit.
  apply step_digits; [assumption | reflexivity |]. rewrite step_lit.
  apply step_digits; [assumption | reflexivity |]. rewrite step_lit.
  apply step_digits_end; [assumption | reflexivity].
Qed.

Lemma int_group_hit (m : match_obj) (i : nat) (t : string) :
  group (m_groups m) i = Some t -> Digits t -> int_group m i = Ok (py_int t).
Proof.
  intros Hg Hd. unfold int_group. rewrite Hg.
  now rewrite (proj1 (Digits_all_digits t) Hd).
Qed.

(** What [parse_semver] returns once the release-candidate pattern matched. *)
Lemma parse_semver_rc_groups (t : string) (m : match_obj) (a b c d : string) :
  t <> "" -> re_match rc_regex t = Some m ->
  m_groups m = [(4%nat, d); (3%nat, c); (2%nat, b); (1%nat, a)] ->
  Digits a -> Digits b -> Digits c -> Digits d ->
  parse_semver (Some t) = Ok (py_int a, py_int b, py_int c, py_int d).
Proof.
  intros Hne Hm Hg Ha Hb Hc Hd. unfold parse_semver.
  destruct t as [|x t]; [congruence|]. rewrite Hm.
  rewrite (int_group_hit m 1 a), (int_group_hit m 2 b),
    (int_group_hit m 3 c), (int_group_hit m 4 d);
    try assumption; try (rewrite Hg; reflexivity).
  reflexivity.
Qed.

Lemma parse_semver_stable_groups (t : string) (m : match_obj) (a b c : string) :
  t <> "" -> re_match rc_regex t = None ->
  re_match stable_regex t = Some m ->
  m_groups m = [(3%nat, c); (2%nat, b); (1%nat, a)] ->
  Digits a -> Digits b -> Digits c ->
  parse_semver (Some t) = Ok (py_int a, py_int b, py_int c, 0).
Proof.
  intros Hne Hrc Hm Hg Ha Hb Hc. unfold parse_semver.
  destruct t as [|x t]; [congruence|]. rewrite Hrc, Hm.
  rewrite (int_group_hit m 1 a), (int_group_hit m 2 b),
    (int_group_hit m 3 c);
    try assumption; try (rewrite Hg; reflexivity).
  reflexivity.
Qed.

Example parse_rc_tag : parse_semver (Some "v2.5.10-rc.99") = Ok (2, 5, 10, 99).
Proof. reflexivity. Qed.

Example parse_stable_tag : parse_semver (Some "v1.2.3") = Ok (1, 2, 3, 0).
Proof. reflexivity. Qed.

Example parse_invalid_tag : parse_semver (Some "invalid") = Ok (0, 0, 0, 0).
Proof. reflexivity. Qed.

Lemma py_str_Digits (n : Z) : 0 <= n -> Digits (py_str n).
Proof. intros H. apply Digits_all_digits. now apply py_str_digits. Qed.

(** C4. For non-negative [M], [N], [P], [R], parsing the tag
    [vM.N.P-rc.R] gives back [(M, N, P, R)]. *)
Theorem parse_semver_round_trip :
  forall M N P R,
    0 <= M -> 0 <= N -> 0 <= P -> 0 <= R ->
    parse_semver
      (Some ("v" ++ py_str M ++ "." ++ py_str N ++ "." ++ py_str P
                 ++ "-rc." ++ py_str R))
    = Ok (M, N, P, R).
Proof.
  intros M N P R HM HN HP HR.
  pose proof (py_str_Digits M HM) as DM. pose proof (py_str_Digits N HN) as DN.
  pose proof (py_str_Digits P HP) as DP. pose proof (py_str_Digits R HR) as DR.
  change ("v" ++ py_str M ++ "." ++ py_str N ++ "." ++ py_str P
              ++ "-rc." ++ py_str R)
    with (rc_tag (py_str M) (py_str N) (py_str P) (py_str R)).
  assert (Hne : rc_tag (py_str M) (py_str N) (py_str P) (py_str R) <> "")
    by (unfold rc_tag; simpl; discriminate).
  rewrite (parse_semver_rc_groups _ _ _ _ _ _
             Hne (rc_match _ _ _ _ DM DN DP DR) eq_refl DM DN DP DR).
  now rewrite !py_int_str by assumption.
Qed.

Lemma parse_semver_round_trip_witness :
  parse_semver (Some "v1.2.3-rc.4") = Ok (1, 2, 3, 4).
Proof.
  exact (parse_semver_round_trip 1 2 3 4
           ltac:(lia) ltac:(lia) ltac:(lia) ltac:(lia)).
Defined.



(** Away from a final line feed the fallback is as described: for a tag
    that is absent, or that has neither of the two shapes nor one of them
    followed by a single line feed, [parse_semver] returns [(0, 0, 0, 0)]. *)
Lemma parse_semver_fallback (tag : option string) :
  (tag = None \/
   exists t, tag = Some t /\ ~ SemverShape t /\
             ~ (exists t0, SemverShape t0 /\ t = t0 ++ NL)) ->
  parse_semver tag = Ok (0, 0, 0, 0).
Proof.
  destruct tag as [t|]; [|reflexivity].
  destruct (string_dec t "") as [->|Hne]; [reflexivity|].
  destruct (re_match rc_regex t) as [m|] eqn:Hrc.
  - destruct (rc_match_inv _ _ Hrc)
      as (a & b & c & d & Ha & Hb & Hc & Hd & Ht & Hg).
    assert (S : RcShape (rc_tag a b c d)) by (now exists a, b, c, d).
    intros [H | (t' & Heq & Hn1 & Hn2)]; [discriminate|].
    injection Heq as <-. exfalso. destruct Ht as [-> | ->].
    + apply Hn1. now right.
    + apply Hn2. exists (rc_tag a b c d). split; [now right | reflexivity].
  - destruct (re_match stable_regex t) as [m|] eqn:Hst.
    + destruct (stable_match_inv _ _ Hst)
        as (a & b & c & Ha & Hb & Hc & Ht & Hg).
      assert (S : StableShape (stable_tag a b c)) by (now exists a, b, c).
      intros [H | (t' & Heq & Hn1 & Hn2)]; [discriminate|].
      injection Heq as <-. exfalso. destruct Ht as [-> | ->].
      * apply Hn1. now left.
      * apply Hn2. exists (stable_tag a b c).
        split; [now left | reflexivity].
    + intros _. unfold parse_semver. destruct t; [congruence|].
      now rewrite Hrc, Hst.
Qed.



(** ** Lines *)

Lemma split_char_cons (sep : ascii) (s : string) :
  exists l ls, split_char sep s = l :: ls.
Proof.
  induction s as [|c s (l & ls & IH)]; simpl; [now eexists; eexists|].
  destruct (c =? sep)%char; [now eexists; eexists|].
  rewrite IH. now eexists; eexists.
Qed.

Lemma first_line_cons (c : ascii) (s : string) :
  first_line (String c s)
  = if (c =? LF)%char then "" else String c (first_line s).
Proof.
  unfold first_line. simpl. destruct (c =? LF)%char; [reflexivity|].
  destruct (split_char_cons LF s) as (l & ls & ->). reflexivity.
Qed.

Lemma tl_split_cons (c : ascii) (s : string) :
  tl (split_char LF (String c s))
  = if (c =? LF)%char then split_char LF s else tl (split_char LF s).
Proof.
  simpl. destruct (c =? LF)%char; [reflexivity|].
  destruct (split_char_cons LF s) as (l & ls & ->). reflexivity.
Qed.

Lemma split_first_tl (s : string) :
  split_char LF s = first_line s :: tl (split_char LF s).
Proof.
  unfold first_line. now destruct (split_char_cons LF s) as (l & ls & ->).
Qed.

Lemma first_line_app (p s : string) :
  one_line p = true -> first_line (p ++ s) = p ++ first_line s.
Proof.
  induction p as [|c p IH]; simpl; intros H; [reflexivity|].
  apply andb_true_iff in H. destruct H as [Hc Hp].
  rewrite first_line_cons. apply negb_true_iff in Hc. rewrite Hc.
  now rewrite (IH Hp).
Qed.

Lemma first_line_prefix (s : string) : exists tail, s = first_line s ++ tail.
Proof.
  induction s as [|c s (tail & IH)]; [now exists ""|].
  rewrite first_line_cons. destruct (c =? LF)%char.
  - now exists (String c s).
  - exists tail. simpl. now rewrite <- IH.
Qed.

Lemma first_line_one_line (s : string) : one_line (first_line s) = true.
Proof.
  induction s as [|c s IH]; [reflexivity|].
  rewrite first_line_cons. destruct (c =? LF)%char eqn:E; [reflexivity|].
  unfold one_line in *. simpl. now rewrite E, IH.
Qed.

Lemma split_one_line (s : string) :
  Forall (fun l => one_line l = true) (split_char LF s).
Proof.
  induction s as [|c s IH]; [now repeat constructor|].
  rewrite split_first_tl. constructor; [apply first_line_one_line|].
  rewrite tl_split_cons. destruct (c =? LF)%char; [assumption|].
  rewrite split_first_tl in IH. now inversion IH.
Qed.

Lemma one_line_first_line (s : string) : one_line s = true -> first_line s = s.
Proof.
  intros H. rewrite <- (app_nil_r_s s) at 1.
  rewrite (first_line_app s "" H). apply app_nil_r_s.
Qed.


(** ** Headers: [kw(scope)?tail] *)

Lemma is_some_true {A} (o : option A) :
  is_some o = true <-> exists x, o = Some x.
Proof.
  destruct o; simpl; split; try discriminate; eauto.
  intros (x & H). discriminate.
Qed.

Lemma step_star_inv {A} ml cl r prev s caps
  (k : option ascii -> string -> groups -> option A) x :
  mexec ml (RStar cl @@ r) prev s caps k = Some x ->
  exists ds rest,
    s = ds ++ rest /\ str_forall (cmatch cl) ds = true /\
    mexec ml r (last_of ds prev) rest caps k = Some x.
Proof. rewrite mexec_seq. cbn [mexec]. apply star_k_inv. Qed.

Lemma step_star_complete {A} ml cl r prev ds rest caps
  (k : option ascii -> string -> groups -> option A) :
  str_forall (cmatch cl) ds = true ->
  is_some (mexec ml r (last_of ds prev) rest caps k) = true ->
  is_some (mexec ml (RStar cl @@ r) prev (ds ++ rest) caps k) = true.
Proof.
  intros Hp Hk. rewrite mexec_seq. cbn [mexec].
  now apply star_k_complete.
Qed.

Lemma scoped_tail_spec ml i tl prev s caps :
  is_some (mexec ml (scope_regex i @@ RLit tl) prev s caps accept) = true
  <-> exists sc rest,
        OptionalScope sc /\ one_line sc = true /\ s = sc ++ tl ++ rest.
Proof.
  unfold scope_regex. rewrite is_some_true. split.
  - intros (x & E). rewrite mexec_seq in E. apply opt_inv in E.
    destruct E as [E | E].
    + rewrite mexec_group in E.
      apply step_lit_inv in E. destruct E as (s1 & -> & E).
      apply step_star_inv in E. destruct E as (ds & s2 & -> & Hds & E).
      apply last_lit_inv in E. destruct E as (s3 & -> & E).
      apply last_lit_inv in E. destruct E as (s4 & -> & _).
      exists ("(" ++ ds ++ ")"), s4. split; [right; now exists ds|].
      split.
      * unfold one_line. rewrite !str_forall_app, Hds. reflexivity.
      * now rewrite !app_assoc_s.
    + apply last_lit_inv in E. destruct E as (s1 & -> & _).
      exists "", s1. split; [now left|]. split; reflexivity.
  - intros (sc & rest & Hsc & Hl & ->). apply is_some_true.
    rewrite mexec_seq. apply opt_complete.
    destruct Hsc as [-> | (inner & ->)].
    + right. cbn [append]. rewrite last_lit. reflexivity.
    + left. rewrite mexec_group. rewrite !app_assoc_s. rewrite step_lit.
      unfold one_line in Hl. rewrite !str_forall_app in Hl.
      apply andb_true_iff in Hl. destruct Hl as [_ Hl].
      apply andb_true_iff in Hl. destruct Hl as [Hin _].
      apply step_star_complete; [assumption|].
      rewrite last_lit. rewrite last_lit. reflexivity.
Qed.

Lemma release_regex_spec prev s :
  at_bol false prev = true ->
  is_some (mexec false release_regex prev s [] accept) = true
  <-> HeadMatch ["chore"] ": release" s.
Proof.
  intros Hb. unfold release_regex, HeadMatch.
  rewrite step_bol by assumption. split.
  - intros H. apply is_some_true in H. destruct H as (x & H).
    apply step_lit_inv in H. destruct H as (s1 & -> & H).
    assert (H' : is_some (mexec false (scope_regex 1 @@ RLit ": release")
                            (last_of "chore" prev) s1 [] accept) = true)
      by (rewrite H; reflexivity).
    apply scoped_tail_spec in H'. destruct H' as (sc & rest & Hsc & Hl & ->).
    exists "chore", sc, rest. repeat split; try assumption. now left.
  - intros (kw & sc & rest & [<- | []] & Hsc & Hl & ->).
    rewrite step_lit. apply scoped_tail_spec. now exists sc, rest.
Qed.

Lemma feat_regex_spec prev s :
  at_bol true prev = true ->
  is_some (mexec true feat_regex prev s [] accept) = true
  <-> HeadMatch ["feat"] ":" s.
Proof.
  intros Hb. unfold feat_regex, HeadMatch.
  rewrite step_bol by assumption. split.
  - intros H. apply is_some_true in H. destruct H as (x & H).
    apply step_lit_inv in H. destruct H as (s1 & -> & H).
    assert (H' : is_some (mexec true (scope_regex 1 @@ RLit ":")
                            (last_of "feat" prev) s1 [] accept) = true)
      by (rewrite H; reflexivity).
    apply scoped_tail_spec in H'. destruct H' as (sc & rest & Hsc & Hl & ->).
    exists "feat", sc, rest. repeat split; try assumption. now left.
  - intros (kw & sc & rest & [<- | []] & Hsc & Hl & ->).
    rewrite step_lit. apply scoped_tail_spec. now exists sc, rest.
Qed.

Lemma breaking_regex_spec prev s :
  at_bol true prev = true ->
  is_some (mexec true breaking_regex prev s [] accept) = true
  <-> HeadMatch ["feat"; "fix"; "refactor"] "!:" s.
Proof.
  intros Hb. unfold breaking_regex, HeadMatch.
  rewrite step_bol by assumption. rewrite mexec_seq, mexec_group. split.
  - intros H. apply is_some_true in H. destruct H as (x & H).
    assert (K : forall kw,
               mexec true (RLit kw) prev s []
                 (fun p s' c =>
                    mexec true (scope_regex 2 @@ RLit "!:") p s'
                      ((1%nat, taken s s') :: c) accept) = Some x ->
               exists sc rest,
                 OptionalScope sc /\ one_line sc = true /\
                 s = kw ++ sc ++ "!:" ++ rest).
    { intros kw E. apply last_lit_inv in E. destruct E as (s1 & -> & E).
      assert (E' : is_some (mexec true (scope_regex 2 @@ RLit "!:")
                              (last_of kw prev) s1
                              [(1%nat, taken (kw ++ s1) s1)] accept) = true)
        by (rewrite E; reflexivity).
      apply scoped_tail_spec in E'.
      destruct E' as (sc & rest & Hsc & Hl & ->). now exists sc, rest. }
    apply alt_inv in H. destruct H as [H | H];
      [|apply alt_inv in H; destruct H as [H | H]];
      apply K in H; destruct H as (sc & rest & Hsc & Hl & ->).
    + exists "feat", sc, rest. simpl. auto.
    + exists "fix", sc, rest. simpl. auto.
    + exists "refactor", sc, rest. simpl. auto.
  - intros (kw & sc & rest & Hkw & Hsc & Hl & ->).
    assert (K : is_some
                  (mexec true (RLit kw) prev (kw ++ sc ++ "!:" ++ rest) []
                     (fun p s' c =>
                        mexec true (scope_regex 2 @@ RLit "!:") p s'
                          ((1%nat, taken (kw ++ sc ++ "!:" ++ rest) s') :: c)
                          accept)) = true).
    { rewrite last_lit. apply scoped_tail_spec. now exists sc, rest. }
    apply alt_complete.
    destruct Hkw as [<- | [<- | [<- | []]]].
    + now left.
    + right. apply alt_complete. now left.
    + right. apply alt_complete. now right.
Qed.

Lemma one_line_app (a b : string) :
  one_line (a ++ b) = one_line a && one_line b.
Proof. apply str_forall_app. Qed.

(** On its first line, a multi-line text shows the same header. *)
Lemma head_first_line (kws : list string) (tl s : string) :
  Forall (fun kw => one_line kw = true) kws -> one_line tl = true ->
  HeadMatch kws tl s <-> Header kws tl (first_line s).
Proof.
  intros Hkws Htl. unfold HeadMatch, Header. split.
  - intros (kw & sc & rest & Hin & Hsc & Hl & ->).
    exists kw, sc, (first_line rest). repeat split; try assumption.
    pose proof (proj1 (Forall_forall _ _) Hkws kw Hin) as Hkw. simpl in Hkw.
    now rewrite !first_line_app by assumption.
  - intros (kw & sc & rest & Hin & Hsc & E).
    pose proof (proj1 (Forall_forall _ _) Hkws kw Hin) as Hkw. simpl in Hkw.
    pose proof (first_line_one_line s) as Hl. rewrite E in Hl.
    rewrite !one_line_app in Hl.
    apply andb_true_iff in Hl. destruct Hl as [_ Hl].
    apply andb_true_iff in Hl. destruct Hl as [Hscl _].
    destruct (first_line_prefix s) as (tail & Es). rewrite E in Es.
    exists kw, sc, (rest ++ tail). repeat split; try assumption.
    now rewrite Es, !app_assoc_s.
Qed.

Lemma head_one_line (kws : list string) (tl s : string) :
  Forall (fun kw => one_line kw = true) kws -> one_line tl = true ->
  one_line s = true -> HeadMatch kws tl s <-> Header kws tl s.
Proof.
  intros Hkws Htl Hs. rewrite (head_first_line kws tl s Hkws Htl).
  now rewrite one_line_first_line.
Qed.

(** ** Searching line starts *)

Section SearchLines.
Variable body : regex.
Variable P : string -> Prop.
Hypothesis body_spec : forall prev s,
  at_bol true prev = true ->
  is_some (mexec true (RBol @@ body) prev s [] accept) = true
  <-> P (first_line s).

Lemma at_line_start prev s :
  is_some (mexec true (RBol @@ body) prev s [] accept) = true
  <-> at_bol true prev = true /\ P (first_line s).
Proof.
  destruct (at_bol true prev) eqn:Hb.
  - rewrite (body_spec prev s Hb). tauto.
  - simpl. rewrite Hb. simpl. split; [discriminate | intros [H _]; discriminate].
Qed.

Lemma search_from_lines : forall s prev,
  is_some (search_from true (RBol @@ body) prev s) = true
  <-> (at_bol true prev = true /\ P (first_line s))
      \/ exists line, In line (tl (split_char LF s)) /\ P line.
Proof.
  induction s as [|c s IH]; intros prev.
  - cbn [search_from]. rewrite <- at_line_start.
    destruct (mexec true (RBol @@ body) prev "" [] accept); simpl.
    + tauto.
    + split; [discriminate | intros [H | (l & [] & _)]; discriminate].
  - cbn [search_from]. rewrite <- at_line_start.
    assert (E : is_some
                  match mexec true (RBol @@ body) prev (String c s) [] accept
                  with
                  | Some m => Some m
                  | None => search_from true (RBol @@ body) (Some c) s
                  end = true
                <-> is_some (mexec true (RBol @@ body) prev (String c s) []
                               accept) = true
                    \/ is_some (search_from true (RBol @@ body) (Some c) s)
                       = true).
    { destruct (mexec true (RBol @@ body) prev (String c s) [] accept);
        simpl; split; auto. intros [H | H]; [discriminate | assumption]. }
    rewrite E, IH, tl_split_cons. clear E IH.
    cbn [at_bol andb]. destruct (c =? LF)%char.
    + rewrite (split_first_tl s). simpl. split.
      * intros [H | [[_ H] | (l & Hin & H)]]; eauto 6.
      * intros [H | (l & [<- | Hin] & H)]; eauto 6.
    + split.
      * intros [H | [[H _] | H]]; auto. discriminate.
      * intros [H | H]; auto.
Qed.

(** [re.search] with [re.MULTILINE] finds a match exactly when some line
    of the text satisfies [P]. *)
Lemma re_search_lines (s : string) :
  is_some (re_search true (RBol @@ body) s) = true
  <-> exists line, In line (split_char LF s) /\ P line.
Proof.
  unfold re_search. rewrite search_from_lines. unfold first_line.
  destruct (split_char_cons LF s) as (l0 & ls & ->). simpl. split.
  - intros [[_ H] | (l & Hin & H)]; eauto.
  - intros (l & [<- | Hin] & H); eauto.
Qed.
End SearchLines.

(** ** analyze_impact *)

Lemma kws_one_line (kws : list string) :
  forallb one_line kws = true -> Forall (fun kw => one_line kw = true) kws.
Proof. intros H. apply Forall_forall. now apply forallb_forall. Qed.

Lemma breaking_search (logs : string) :
  is_some (re_search true breaking_regex logs) = true
  <-> exists line, In line (split_char LF logs) /\ BreakingHeader line.
Proof.
  apply (re_search_lines _ BreakingHeader). intros prev s Hb.
  rewrite (breaking_regex_spec prev s Hb).
  apply head_first_line; [now apply kws_one_line | reflexivity].
Qed.

Lemma feat_search (logs : string) :
  is_some (re_search true feat_regex logs) = true
  <-> exists line, In line (split_char LF logs) /\ FeatHeader line.
Proof.
  apply (re_search_lines _ FeatHeader). intros prev s Hb.
  rewrite (feat_regex_spec prev s Hb).
  apply head_first_line; [now apply kws_one_line | reflexivity].
Qed.

Example breaking_feature_is_not_feat :
  fst (analyze_impact
         (sample_world None "v1.0.0" "feat!: drop the old api"
            ("feat!: drop the old api" ++ NL ++ "Some details"))
         (Some "v1.0.0") st0)
  = Ret (true, false).
Proof. reflexivity. Qed.

(** C5. On the commit-message corpus the query returns (absent read as
    empty), [is_breaking] holds exactly when some line is a breaking header
    ([feat], [fix] or [refactor], optionally scoped, then [!:]) or the text
    [BREAKING CHANGE] occurs anywhere, and [is_feat] holds exactly when some
    line is a feature header ([feat], optionally scoped, then [:]); the two
    are detected independently. *)
Theorem analyze_impact_flags :
  forall w tag st o,
    fst (run_git_command w ["log"; rev_range tag; "--pretty=format:%B"]
           false st) = Ret o ->
    exists is_breaking is_feat,
      fst (analyze_impact w tag st) = Ret (is_breaking, is_feat) /\
      (is_breaking = true <->
       (exists line,
           In line (split_char LF (text_of o)) /\ BreakingHeader line)
       \/ Contains "BREAKING CHANGE" (text_of o)) /\
      (is_feat = true <->
       exists line, In line (split_char LF (text_of o)) /\ FeatHeader line).
Proof.
  intros w tag st o H.
  exists (is_some (re_search true breaking_regex (text_of o))
          || str_in "BREAKING CHANGE" (text_of o)),
         (is_some (re_search true feat_regex (text_of o))).
  split; [|split].
  - unfold analyze_impact, bind.
    destruct (run_git_command _ _ _ st) as [r st'] eqn:E.
    simpl in H. subst r. destruct o as [[|c logs]|]; reflexivity.
  - rewrite orb_true_iff, breaking_search, str_in_iff. reflexivity.
  - apply feat_search.
Qed.

Lemma analyze_impact_flags_witness :
  exists is_breaking is_feat,
    fst (analyze_impact
           (sample_world None "v1.0.0" "feat!: drop the old api"
              ("feat!: drop the old api" ++ NL ++ "Some details"))
           (Some "v1.0.0") st0)
    = Ret (is_breaking, is_feat) /\
    (is_breaking = true <->
     (exists line,
         In line (split_char LF
                    ("feat!: drop the old api" ++ NL ++ "Some details"))
         /\ BreakingHeader line)
     \/ Contains "BREAKING CHANGE"
          ("feat!: drop the old api" ++ NL ++ "Some details")) /\
    (is_feat = true <->
     exists line,
       In line (split_char LF
                  ("feat!: drop the old api" ++ NL ++ "Some details"))
       /\ FeatHeader line).
Proof.
  exact (analyze_impact_flags
           (sample_world None "v1.0.0" "feat!: drop the old api"
              ("feat!: drop the old api" ++ NL ++ "Some details"))
           (Some "v1.0.0") st0
           (Some ("feat!: drop the old api" ++ NL ++ "Some details"))
           eq_refl).
Defined.

(** ** get_commit_depth *)

Lemma skipped_spec (s : string) :
  one_line s = true -> skipped s = true <-> Excluded s.
Proof.
  intros Hs. unfold skipped, Excluded, ReleaseSubject.
  rewrite !orb_true_iff, !str_in_iff.
  unfold re_match. rewrite (release_regex_spec None s eq_refl).
  rewrite (head_one_line ["chore"] ": release" s
             (kws_one_line ["chore"] eq_refl) eq_refl Hs).
  tauto.
Qed.

Lemma collect_real_cons (s : string) (l acc : list string) :
  collect_real (s :: l) acc
  = if skipped s then collect_real l acc
    else collect_real l (acc ++ [s])%list.
Proof.
  simpl. unfold skipped.
  destruct (str_in BOT_FOOTER_TAG s || str_in BOT_COMMIT_MSG s);
    [reflexivity|].
  now destruct (is_some (re_match release_regex s)).
Qed.

Lemma collect_real_length (l : list string) : forall acc,
  List.length (collect_real l acc)
  = (List.length acc
     + List.length (filter (fun s => negb (skipped s)) l))%nat.
Proof.
  induction l as [|s l IH]; intros acc; [simpl; lia|].
  rewrite collect_real_cons. cbn [filter].
  destruct (skipped s); cbn [negb]; [apply IH|].
  rewrite IH, length_app. simpl. lia.
Qed.

Lemma real_count_filter (l : list string) :
  Forall (fun s => one_line s = true) l ->
  real_count l (List.length (filter (fun s => negb (skipped s)) l)).
Proof.
  induction 1 as [|s l Hs _ IH]; simpl; [constructor|].
  destruct (skipped s) eqn:E; simpl.
  - apply real_count_skip; [now apply skipped_spec | assumption].
  - apply real_count_keep; [|assumption].
    intros X. apply (skipped_spec s Hs) in X. congruence.
Qed.

Lemma filter_length_perm (f : string -> bool) (l l' : list string) :
  Permutation l l' -> List.length (filter f l) = List.length (filter f l').
Proof.
  induction 1 as [|x l l' _ IH|x y l|l l' l'' _ IH1 _ IH2]; simpl.
  - reflexivity.
  - destruct (f x); simpl; now rewrite IH.
  - destruct (f x), (f y); reflexivity.
  - now rewrite IH1.
Qed.

Example depth_mixed_batch :
  fst (get_commit_depth
         (sample_world None "v1.0.0"
            ("feat: new feature" ++ NL ++ "chore: enforce correct rc version"
               ++ NL ++ "fix: bug fix" ++ NL ++ "Release-As: 1.2.3" ++ NL
               ++ "chore(next): release v1.0.0-rc.1" ++ NL ++ "docs: update")
            "")
         (Some "v1.0.0") st0)
  = Ret 3.
Proof. reflexivity. Qed.

(** C6. The subjects are the lines of the query result.  An empty or absent
    result gives depth 0; otherwise the depth is the number of subjects that
    neither contain [Release-As:] or [chore: enforce correct rc version] nor
    start with [chore], optionally scoped, then [: release].  The position
    of a subject in the batch plays no part. *)
Theorem get_commit_depth_counts :
  forall w tag st o,
    fst (run_git_command w
           ["log"; rev_range tag; "--first-parent"; "--pretty=format:%s"]
           false st) = Ret o ->
    (text_of o = "" -> fst (get_commit_depth w tag st) = Ret 0) /\
    (text_of o <> "" ->
     exists n,
       real_count (split_char LF (text_of o)) n /\
       fst (get_commit_depth w tag st) = Ret (Z.of_nat n)) /\
    (forall subjects subjects',
        Permutation subjects subjects' ->
        List.length (collect_real subjects [])
        = List.length (collect_real subjects' [])).
Proof.
  intros w tag st o H.
  assert (E : fst (get_commit_depth w tag st)
              = match o with
                | Some (String c raw) =>
                    Ret (Z.of_nat
                           (List.length
                              (collect_real (split_char LF (String c raw)) [])))
                | _ => Ret 0
                end).
  { unfold get_commit_depth, bind.
    destruct (run_git_command _ _ _ st) as [r st'] eqn:R.
    simpl in H. subst r. destruct o as [[|c raw]|]; reflexivity. }
  split; [|split].
  - intros Ho. rewrite E. destruct o as [[|c raw]|]; try reflexivity.
    discriminate.
  - intros Ho. destruct o as [[|c raw]|]; simpl in Ho; try congruence.
    rewrite E. simpl text_of.
    exists (List.length
              (filter (fun s => negb (skipped s))
                 (split_char LF (String c raw)))).
    split; [apply real_count_filter, split_one_line|].
    now rewrite collect_real_length.
  - intros l l' Hp. rewrite !collect_real_length.
    now rewrite (filter_length_perm _ l l' Hp).
Qed.

Lemma get_commit_depth_counts_witness :
  exists n,
    real_count
      (split_char LF
         ("feat: new feature" ++ NL ++ "Release-As: 1.2.3" ++ NL
            ++ "chore: release v1.0.0"))
      n /\
    fst (get_commit_depth
           (sample_world None "v1.0.0"
              ("feat: new feature" ++ NL ++ "Release-As: 1.2.3" ++ NL
                 ++ "chore: release v1.0.0")
              "")
           (Some "v1.0.0") st0)
    = Ret (Z.of_nat n).
Proof.
  apply (proj1 (proj2
    (get_commit_depth_counts
       (sample_world None "v1.0.0"
          ("feat: new feature" ++ NL ++ "Release-As: 1.2.3" ++ NL
             ++ "chore: release v1.0.0")
          "")
       (Some "v1.0.0") st0
       (Some ("feat: new feature" ++ NL ++ "Release-As: 1.2.3" ++ NL
                ++ "chore: release v1.0.0"))
       eq_refl))).
  simpl. discriminate.
Defined.

(** ** Stripping and cutting *)

Lemma lstrip_by_head (p : ascii -> bool) (s : string) (c : ascii) (t : string) :
  lstrip_by p s = String c t -> p c = false.
Proof.
  induction s as [|x s IH]; simpl; [discriminate|].
  destruct (p x) eqn:E; [assumption|]. intros H. injection H as <- _.
  assumption.
Qed.

Lemma rstrip_by_head (p : ascii -> bool) (c : ascii) (t : string) :
  p c = false -> exists t', rstrip_by p (String c t) = String c t'.
Proof.
  intros H. simpl. rewrite H. destruct (rstrip_by p t); eauto.
Qed.

(** Stripped output is empty or starts with a character that is not
    white space. *)
Lemma strip_head (s : string) :
  strip s = "" \/ exists c t, strip s = String c t /\ py_isspace c = false.
Proof.
  unfold strip. destruct (lstrip_by py_isspace s) as [|c t] eqn:E.
  - now left.
  - right. pose proof (lstrip_by_head _ _ _ _ E) as Hc.
    destruct (rstrip_by_head py_isspace c t Hc) as (t' & ->). eauto.
Qed.

Lemma first_line_strip_nonempty (s : string) :
  strip s <> "" -> first_line (strip s) <> "".
Proof.
  intros Hne. destruct (strip_head s) as [E | (c & t & E & Hc)];
    [congruence|].
  rewrite E, first_line_cons.
  destruct (Ascii.eqb_spec c LF) as [->|_]; [discriminate | discriminate].
Qed.

Lemma before_spec (needle s : string) : CutAtFirst needle s (before needle s).
Proof.
  induction s as [|c s IH]; simpl.
  - destruct (startswith needle "") eqn:E.
    + right. apply startswith_iff in E. destruct E as (post & E).
      exists post. split; [assumption|]. intros; simpl; lia.
    + left. split; [|reflexivity]. intros X. apply str_in_iff in X.
      simpl in X. now rewrite E in X.
  - destruct (startswith needle (String c s)) eqn:E.
    + right. apply startswith_iff in E. destruct E as (post & E).
      exists post. split; [assumption|]. intros; simpl; lia.
    + assert (Hhead : forall post', String c s <> needle ++ post').
      { intros post' X.
        assert (startswith needle (String c s) = true)
          by (apply startswith_iff; now exists post').
        congruence. }
      destruct IH as [[Hno ->] | (post & Hs & Hmin)].
      * left. split; [|reflexivity].
        intros (pre' & post' & X). destruct pre' as [|x pre'].
        -- now apply (Hhead post').
        -- simpl in X. injection X as _ X. apply Hno. now exists pre', post'.
      * right. exists post. split; [simpl; now rewrite <- Hs|].
        intros pre' post' X. destruct pre' as [|x pre'].
        -- exfalso. now apply (Hhead post').
        -- simpl in X. injection X as _ X. simpl.
           specialize (Hmin _ _ X). lia.
Qed.

Lemma lstrip_char_spec (c : ascii) (s : string) :
  StripLeading c s (lstrip_char c s).
Proof.
  unfold StripLeading, lstrip_char. induction s as [|x s (n & Hs & Hn)].
  - now exists O.
  - simpl. destruct (Ascii.eqb_spec x c) as [->|Hx].
    + exists (S n). simpl. now rewrite <- Hs.
    + exists O. split; [reflexivity|]. simpl.
      destruct (Ascii.eqb_spec c x); [congruence | reflexivity].
Qed.

Lemma lit_k_none {A} (l : string) : forall prev s
  (k : option ascii -> string -> option A),
  startswith l s = false -> lit_k l prev s k = None.
Proof.
  induction l as [|a l IH]; intros prev s k; simpl; [discriminate|].
  destruct s as [|b s]; [reflexivity|].
  destruct (a =? b)%char; [apply IH | reflexivity].
Qed.

Lemma sub_scan_skip_all (s : string) : forall prev,
  sub_scan rc_suffix_regex "" prev s (String.length s) = "".
Proof. induction s as [|c s IH]; intros prev; [reflexivity | apply IH]. Qed.

(** On a one-line text, deleting the matches of [-rc.*] keeps what stands
    before the first [-rc]. *)
Lemma sub_scan_rc_suffix (s : string) : forall prev,
  one_line s = true -> sub_scan rc_suffix_regex "" prev s 0 = before "-rc" s.
Proof.
  induction s as [|c s IH]; intros prev Hs; [reflexivity|].
  assert (Hs' : one_line s = true).
  { unfold one_line in *. simpl in Hs. now apply andb_true_iff in Hs. }
  cbn [sub_scan before].
  destruct (startswith "-rc" (String c s)) eqn:E.
  - apply startswith_iff in E. destruct E as (post & E).
    assert (Hpost : str_forall (cmatch CDot) post = true).
    { unfold one_line in Hs. rewrite E in Hs.
      rewrite str_forall_app in Hs. now apply andb_true_iff in Hs. }
    assert (M : mexec false rc_suffix_regex prev (String c s) [] accept
                = Some (MkMatch "" [])).
    { rewrite E. unfold rc_suffix_regex. rewrite step_lit. cbn [mexec].
      rewrite <- (app_nil_r_s post).
      now apply star_k_greedy. }
    rewrite M. cbn [m_end String.length Nat.sub append].
    apply sub_scan_skip_all.
  - assert (M : mexec false rc_suffix_regex prev (String c s) [] accept = None).
    { unfold rc_suffix_regex. rewrite mexec_seq. cbn [mexec].
      now apply lit_k_none. }
    rewrite M. now rewrite (IH (Some c) Hs').
Qed.

Lemma re_sub_rc_suffix (tag : string) :
  one_line tag = true -> CutAtFirst "-rc" tag (re_sub rc_suffix_regex "" tag).
Proof.
  intros H. unfold re_sub. rewrite (sub_scan_rc_suffix tag None H).
  apply before_spec.
Qed.

Example promote_rc_tag : stable_version_of (Some "v1.2.3-rc.4") = "1.2.3".
Proof. reflexivity. Qed.

Example promote_double_v : stable_version_of (Some "vv1.2.3") = "1.2.3".
Proof. reflexivity. Qed.

(** ** Effects of the steps *)

Section NoExit.
Context {A B : Type}.

Lemma no_exit_ret (a : A) : no_exit (ret a).
Proof. intros st c st' H. discriminate. Qed.

Lemma no_exit_raise (e : exn) : no_exit (@raise A e).
Proof. intros st c st' H. discriminate. Qed.

Lemma no_exit_lift (r : result A) : no_exit (lift r).
Proof. destruct r; [apply no_exit_ret | apply no_exit_raise]. Qed.

Lemma no_exit_bind (m : M A) (f : A -> M B) :
  no_exit m -> (forall a, no_exit (f a)) -> no_exit (bind m f).
Proof.
  intros Hm Hf st c st' H. unfold bind in H.
  destruct (m st) as [[a | e | c0] st1] eqn:E.
  - now apply (Hf a st1 c st').
  - discriminate.
  - now apply (Hm st c0 st1).
Qed.
End NoExit.

Lemma no_exit_print (line : string) : no_exit (print line).
Proof. intros st c st' H. discriminate. Qed.

Lemma no_exit_append_file w path text : no_exit (append_file w path text).
Proof.
  intros st c st' H. unfold append_file in H.
  destruct (open_append w path); discriminate.
Qed.

Lemma no_exit_environ_item w key : no_exit (environ_item w key).
Proof.
  unfold environ_item. destruct (environ w key);
    [apply no_exit_ret | apply no_exit_raise].
Qed.

Lemma no_exit_run_git_command w args foe : no_exit (run_git_command w args foe).
Proof.
  intros st c st' H. unfold run_git_command in H.
  destruct (subprocess_run w ("git" :: args) foe) as [e | out];
    [destruct (is_CalledProcessError e)|]; discriminate.
Qed.

Create HintDb noexit.

#[local] Hint Resolve no_exit_ret no_exit_raise no_exit_lift no_exit_print
  no_exit_append_file no_exit_environ_item no_exit_run_git_command : noexit.

Lemma no_exit_find_baseline_tag w : no_exit (find_baseline_tag w).
Proof.
  unfold find_baseline_tag. apply no_exit_bind; [auto with noexit|].
  intros o. destruct (negb (truthy o)).
  - apply no_exit_bind; auto with noexit.
  - destruct (str_in "-rc" _); apply no_exit_bind; auto with noexit.
Qed.

Lemma no_exit_get_commit_depth w tag : no_exit (get_commit_depth w tag).
Proof.
  unfold get_commit_depth. apply no_exit_bind; [auto with noexit|].
  intros [raw|]; [|auto with noexit].
  destruct (negb (truthy (Some raw))); auto with noexit.
Qed.

Lemma no_exit_analyze_impact w tag : no_exit (analyze_impact w tag).
Proof.
  unfold analyze_impact. apply no_exit_bind; [auto with noexit|].
  intros [logs|]; [|auto with noexit].
  destruct (negb (truthy (Some logs))); auto with noexit.
Qed.

#[local] Hint Resolve no_exit_find_baseline_tag no_exit_get_commit_depth
  no_exit_analyze_impact : noexit.

(** What [run_git_command] leaves behind: one more command, nothing else. *)
Lemma run_git_command_state w args foe st :
  snd (run_git_command w args foe st)
  = MkState (stdout st) (calls st ++ ["git" :: args]) (writes st).
Proof.
  unfold run_git_command.
  destruct (subprocess_run w ("git" :: args) foe) as [e | out];
    [destruct (is_CalledProcessError e)|]; reflexivity.
Qed.

Lemma find_baseline_tag_state w st :
  calls (snd (find_baseline_tag w st))
  = (calls st ++ [["git"; "tag"; "-l"; "v*"; "--sort=-creatordate"]])%list
  /\ writes (snd (find_baseline_tag w st)) = writes st.
Proof.
  unfold find_baseline_tag, bind.
  pose proof (run_git_command_state w
                ["tag"; "-l"; "v*"; "--sort=-creatordate"] false st) as E.
  destruct (run_git_command _ _ _ st) as [[o | e | c] st1]; simpl in E;
    subst st1; [|split; reflexivity..].
  destruct (negb (truthy o)); [split; reflexivity|].
  destruct (str_in "-rc" _); split; reflexivity.
Qed.

Lemma get_commit_depth_state w tag st :
  snd (get_commit_depth w tag st)
  = MkState (stdout st)
      (calls st ++ [["git"; "log"; rev_range tag; "--first-parent";
                     "--pretty=format:%s"]])
      (writes st).
Proof.
  unfold get_commit_depth, bind.
  pose proof (run_git_command_state w
                ["log"; rev_range tag; "--first-parent";
                 "--pretty=format:%s"] false st) as E.
  destruct (run_git_command _ _ _ st) as [[o | e | c] st1]; simpl in E;
    subst st1; try reflexivity.
  destruct o as [raw|]; [|reflexivity].
  destruct (negb (truthy (Some raw))); reflexivity.
Qed.

(** The tag [find_baseline_tag] returns is a non-empty single line. *)
Lemma find_baseline_tag_tag w st tag fs st1 :
  find_baseline_tag w st = (Ret (Some tag, fs), st1) ->
  tag <> "" /\ one_line tag = true.
Proof.
  unfold find_baseline_tag, bind, run_git_command.
  destruct (subprocess_run w _ false) as [e | out].
  - destruct (is_CalledProcessError e); [|discriminate].
    simpl. discriminate.
  - destruct (strip out) as [|c t] eqn:E; [simpl; discriminate|].
    assert (Hne : strip out <> "") by (rewrite E; discriminate).
    apply first_line_strip_nonempty in Hne. rewrite E in Hne.
    cbn [truthy negb text_of].
    change (hd "" (split_char LF (String c t))) with (first_line (String c t)).
    pose proof (first_line_one_line (String c t)) as Hl.
    destruct (str_in "-rc" (first_line (String c t)));
      unfold print; simpl; intros H; injection H as <- _ _; auto.
Qed.

(** ** main *)

Lemma try_except_status {A} (body : M A) (handler : exn -> M A) st :
  no_exit body ->
  (forall e st', exit_status (fst (handler e st')) = 0) ->
  exit_status (fst (try_except body handler st)) = 0.
Proof.
  intros Hb Hh. unfold try_except.
  destruct (body st) as [[a | e | c] st'] eqn:E.
  - reflexivity.
  - apply Hh.
  - exfalso. now apply (Hb st c st').
Qed.

(** Taken by itself, [main] is fail-open: whatever the surroundings do, it
    returns or leaves through [sys.exit(0)]. *)
Lemma main_fail_open (w : World) (st : State) :
  exit_status (fst (main w st)) = 0.
Proof.
  unfold main. destruct (on_stable_branch _).
  - apply try_except_status; [|reflexivity].
    apply no_exit_bind; [auto with noexit|]. intros r.
    apply no_exit_bind; [auto with noexit|]. intros _.
    apply no_exit_bind; auto with noexit.
  - apply try_except_status; [|reflexivity].
    apply no_exit_bind; [auto with noexit|]. intros [tag from_stable].
    apply no_exit_bind; [auto with noexit|]. intros depth.
    destruct (depth =? 0); [auto with noexit|].
    apply no_exit_bind; [auto with noexit|]. intros [[[major minor] patch] rc].
    apply no_exit_bind; [auto with noexit|]. intros [is_breaking is_feat].
    apply no_exit_bind; auto with noexit.
Qed.

Example main_catches_missing_git :
  main (MkWorld (fun _ => None)
          (fun _ _ => inl (Exn "FileNotFoundError" "No such file: 'git'"))
          (fun _ => None)) st0
  = (Exit 0,
     MkState ["CRITICAL ERROR: No such file: 'git'"]
       [["git"; "tag"; "-l"; "v*"; "--sort=-creatordate"]] []).
Proof. reflexivity. Qed.

(** C2 (as the code behaves).  Run as a script, the module body reaches the
    bare name [e] before [main] is defined: the run ends in an uncaught
    [NameError], with exit status 1, nothing printed and nothing written,
    whatever the surroundings are. *)
Theorem script_stops_at_stray_name :
  forall w st,
    run_script w st = (Raise (Exn "NameError" "name 'e' is not defined"), st)
    /\ exit_status (fst (run_script w st)) = 1.
Proof. intros w st. split; reflexivity. Qed.

(** C8. On the release-candidate path, when the depth is 0, [main] returns
    normally after printing one line: nothing is appended to any file, and
    the only commands run are the tag listing and the subject listing (the
    message bodies are never queried, no version is computed). *)
Theorem zero_depth_emits_nothing :
  forall w st tag from_stable st1 st2,
    on_stable_branch (environ w "GITHUB_REF_NAME") = false ->
    find_baseline_tag w st = (Ret (tag, from_stable), st1) ->
    get_commit_depth w tag st1 = (Ret 0, st2) ->
    main w st
    = (Ret tt,
       MkState
         (stdout st1
            ++ ["INFO: No user commits found since baseline. Exiting."])
         (calls st
            ++ [["git"; "tag"; "-l"; "v*"; "--sort=-creatordate"];
                ["git"; "log"; rev_range tag; "--first-parent";
                 "--pretty=format:%s"]])
         (writes st)).
Proof.
  intros w st tag fs st1 st2 Hb Hf Hd.
  pose proof (find_baseline_tag_state w st) as [Hc Hw].
  rewrite Hf in Hc, Hw. simpl in Hc, Hw.
  pose proof (get_commit_depth_state w tag st1) as Hs.
  rewrite Hd in Hs. simpl in Hs.
  unfold main. rewrite Hb. unfold try_except, bind. rewrite Hf, Hd.
  cbn. subst st2. cbn. rewrite Hc, Hw, <- app_assoc. reflexivity.
Qed.

Lemma zero_depth_emits_nothing_witness :
  main (sample_world (Some "next") "v1.0.0-rc.1"
          ("chore(next): release v1.0.0-rc.1" ++ NL ++ "Release-As: 1.0.0")
          "feat: never read") st0
  = (Ret tt,
     MkState
       ["INFO: Baseline found (RC): v1.0.0-rc.1";
        "INFO: No user commits found since baseline. Exiting."]
       [["git"; "tag"; "-l"; "v*"; "--sort=-creatordate"];
        ["git"; "log"; "v1.0.0-rc.1..HEAD"; "--first-parent";
         "--pretty=format:%s"]]
       []).
Proof.
  exact (zero_depth_emits_nothing
           (sample_world (Some "next") "v1.0.0-rc.1"
              ("chore(next): release v1.0.0-rc.1" ++ NL ++ "Release-As: 1.0.0")
              "feat: never read")
           st0 (Some "v1.0.0-rc.1") false _ _ eq_refl eq_refl eq_refl).
Defined.

(** C10. On the stable-promotion path with a baseline tag, [main] appends
    [next_version=<v>] where [<v>] is the tag cut at its first [-rc] and then
    freed of its leading [v]s; the tag is not parsed, so [vv1.2.3] goes out
    as [1.2.3]. *)
Theorem stable_promotion_emits_cleaned_tag :
  forall w st tag from_stable st1 path,
    on_stable_branch (environ w "GITHUB_REF_NAME") = true ->
    find_baseline_tag w st = (Ret (Some tag, from_stable), st1) ->
    environ w "GITHUB_OUTPUT" = Some path ->
    open_append w path = None ->
    exists clean v,
      CutAtFirst "-rc" tag clean /\ StripLeading "v" clean v /\
      main w st
      = (Ret tt,
         MkState
           (stdout st1
              ++ ["INFO: Detected tag " ++ tag ++ ", promoting to " ++ v])
           (calls st1)
           (writes st1 ++ [(path, "next_version=" ++ v ++ NL)])).
Proof.
  intros w st tag fs st1 path Hb Hf He Ho.
  destruct (find_baseline_tag_tag _ _ _ _ _ Hf) as [Hne Hl].
  exists (re_sub rc_suffix_regex "" tag),
         (lstrip_char "v" (re_sub rc_suffix_regex "" tag)).
  split; [now apply re_sub_rc_suffix|].
  split; [apply lstrip_char_spec|].
  assert (Hv : stable_version_of (Some tag)
               = lstrip_char "v" (re_sub rc_suffix_regex "" tag)).
  { unfold stable_version_of. destruct tag; [congruence | reflexivity]. }
  unfold main. rewrite Hb. unfold try_except, bind. rewrite Hf.
  cbn [fst fmt_opt]. rewrite Hv. unfold print at 1. cbn [fst snd].
  unfold environ_item. rewrite He. unfold ret, append_file. rewrite Ho.
  reflexivity.
Qed.

Lemma stable_promotion_emits_cleaned_tag_witness :
  exists clean v,
    CutAtFirst "-rc" "vv1.2.3" clean /\ StripLeading "v" clean v /\
    main (sample_world (Some "main") "vv1.2.3" "" "") st0
    = (Ret tt,
       MkState
         (["INFO: Baseline found (Stable): vv1.2.3"]
            ++ ["INFO: Detected tag " ++ "vv1.2.3" ++ ", promoting to " ++ v])
         [["git"; "tag"; "-l"; "v*"; "--sort=-creatordate"]]
         ([] ++ [("/tmp/github_output", "next_version=" ++ v ++ NL)])).
Proof.
  exact (stable_promotion_emits_cleaned_tag
           (sample_world (Some "main") "vv1.2.3" "" "") st0
           "vv1.2.3" true _ "/tmp/github_output"
           eq_refl eq_refl eq_refl eq_refl).
Defined.

Example stable_promotion_double_v :
  main (sample_world (Some "main") "vv1.2.3" "" "") st0
  = (Ret tt,
     MkState
       ["INFO: Baseline found (Stable): vv1.2.3";
        "INFO: Detected tag vv1.2.3, promoting to 1.2.3"]
       [["git"; "tag"; "-l"; "v*"; "--sort=-creatordate"]]
       [("/tmp/github_output", "next_version=1.2.3" ++ NL)]).
Proof. reflexivity. Qed.

Example stable_promotion_no_tags :
  writes (snd (main (sample_world (Some "main") "" "" "") st0))
  = [("/tmp/github_output", "next_version=0.1.0" ++ NL)].
Proof. reflexivity. Qed.

Example rc_path_feat_from_stable :
  writes (snd (main (sample_world (Some "next") "v1.2.3" "feat: add x"
                       "feat: add x") st0))
  = [("/tmp/github_output", "next_version=1.3.0-rc.1" ++ NL)].
Proof. reflexivity. Qed.

(* ================================================================== *)
(** * Part III: further properties of the code                          *)
(* ================================================================== *)

(** ** parse_semver on well-shaped tags *)

Lemma is_digit_bounds (c : ascii) :
  is_digit c = true -> 0 <= digit_val c <= 9.
Proof.
  unfold is_digit, digit_val. cbv zeta. intros H. apply andb_true_iff in H.
  destruct H as [H1 H2]. apply N.leb_le in H1. apply N.leb_le in H2.
  generalize dependent (N_of_ascii c). intros n H1 H2. lia.
Qed.

Lemma is_digit_neq (c x : ascii) :
  is_digit c = true -> is_digit x = false -> (c =? x)%char = false.
Proof.
  intros Hc Hx. destruct (Ascii.eqb_spec c x) as [->|]; [congruence|].
  reflexivity.
Qed.

Lemma int_acc_nonneg (s : string) : forall acc,
  0 <= acc -> str_forall is_digit s = true -> 0 <= int_acc acc s.
Proof.
  induction s as [|c s IH]; intros acc Ha Hs; [assumption|].
  cbn [str_forall] in Hs. cbn [int_acc].
  apply andb_true_iff in Hs. destruct Hs as [Hc Hs].
  pose proof (is_digit_bounds c Hc). apply IH; [lia | assumption].
Qed.

Lemma py_int_nonneg (s : string) : Digits s -> 0 <= py_int s.
Proof. intros [_ H]. apply int_acc_nonneg; [lia | assumption]. Qed.

Lemma Digits_forall (q : ascii -> bool) (s : string) :
  (forall c, is_digit c = true -> q c = true) ->
  Digits s -> str_forall q s = true.
Proof.
  intros Hq [_ H]. induction s as [|c s IH]; simpl in *; [reflexivity|].
  apply andb_true_iff in H. destruct H as [Hc Hs].
  now rewrite (Hq c Hc), (IH Hs).
Qed.

Lemma Digits_not_r (s : string) : Digits s -> str_forall not_r s = true.
Proof.
  apply Digits_forall. intros c Hc. unfold not_r.
  now rewrite (is_digit_neq c "r" Hc eq_refl).
Qed.

Lemma rc_match_tail (a b c d tail : string) :
  Digits a -> Digits b -> Digits c -> Digits d ->
  tail = "" \/ tail = NL ->
  re_match rc_regex (rc_tag a b c d ++ tail)
  = Some (MkMatch tail [(4%nat, d); (3%nat, c); (2%nat, b); (1%nat, a)]).
Proof.
  intros Ha Hb Hc Hd Ht. unfold re_match, rc_regex, rc_tag.
  rewrite !app_assoc_s. rewrite step_bol by reflexivity.
  rewrite step_lit.
  apply step_digits; [assumption | reflexivity |]. rewrite step_lit.
  apply step_digits; [assumption | reflexivity |]. rewrite step_lit.
  apply step_digits; [assumption | reflexivity |]. rewrite step_lit.
  apply step_digits; [assumption | destruct Ht as [-> | ->]; [exact I | reflexivity] |].
  destruct Ht as [-> | ->]; reflexivity.
Qed.

Lemma stable_match_tail (a b c tail : string) :
  Digits a -> Digits b -> Digits c ->
  tail = "" \/ tail = NL ->
  re_match stable_regex (stable_tag a b c ++ tail)
  = Some (MkMatch tail [(3%nat, c); (2%nat, b); (1%nat, a)]).
Proof.
  intros Ha Hb Hc Ht. unfold re_match, stable_regex, stable_tag.
  rewrite !app_assoc_s. rewrite step_bol by reflexivity.
  rewrite step_lit.
  apply step_digits; [assumption | reflexivity |]. rewrite step_lit.
  apply step_digits; [assumption | reflexivity |]. rewrite step_lit.
  apply step_digits; [assumption | destruct Ht as [-> | ->]; [exact I | reflexivity] |].
  destruct Ht as [-> | ->]; reflexivity.
Qed.

(** The release-candidate pattern does not match a stable tag. *)
Lemma rc_no_match_stable (a b c tail : string) :
  Digits a -> Digits b -> Digits c ->
  tail = "" \/ tail = NL ->
  re_match rc_regex (stable_tag a b c ++ tail) = None.
Proof.
  intros Ha Hb Hc Ht.
  destruct (re_match rc_regex (stable_tag a b c ++ tail)) as [m|] eqn:E;
    [exfalso | reflexivity].
  destruct (rc_match_inv _ _ E)
    as (a' & b' & c' & d' & Ha' & Hb' & Hc' & Hd' & Heq & _).
  assert (L : str_forall not_r (stable_tag a b c ++ tail) = true).
  { unfold stable_tag. rewrite !str_forall_app.
    rewrite (Digits_not_r a Ha), (Digits_not_r b Hb), (Digits_not_r c Hc).
    destruct Ht as [-> | ->]; reflexivity. }
  assert (R : forall t, str_forall not_r (rc_tag a' b' c' d' ++ t) = false).
  { intros t. unfold rc_tag. rewrite !str_forall_app.
    rewrite (Digits_not_r a' Ha'), (Digits_not_r b' Hb'),
      (Digits_not_r c' Hc'). reflexivity. }
  destruct Heq as [Heq | Heq]; rewrite Heq in L.
  - rewrite <- (app_nil_r_s (rc_tag a' b' c' d')) in L.
    rewrite R in L. discriminate.
  - rewrite R in L. discriminate.
Qed.

Lemma tag_nonempty_rc (a b c d tail : string) : rc_tag a b c d ++ tail <> "".
Proof. unfold rc_tag. simpl. discriminate. Qed.

Lemma tag_nonempty_stable (a b c tail : string) :
  stable_tag a b c ++ tail <> "".
Proof. unfold stable_tag. simpl. discriminate. Qed.

Lemma parse_semver_rc_decode (a b c d tail : string) :
  Digits a -> Digits b -> Digits c -> Digits d ->
  tail = "" \/ tail = NL ->
  parse_semver (Some (rc_tag a b c d ++ tail))
  = Ok (py_int a, py_int b, py_int c, py_int d).
Proof.
  intros Ha Hb Hc Hd Ht.
  exact (parse_semver_rc_groups _ _ a b c d
           (tag_nonempty_rc a b c d tail)
           (rc_match_tail a b c d tail Ha Hb Hc Hd Ht) eq_refl Ha Hb Hc Hd).
Qed.

Lemma parse_semver_stable_decode (a b c tail : string) :
  Digits a -> Digits b -> Digits c ->
  tail = "" \/ tail = NL ->
  parse_semver (Some (stable_tag a b c ++ tail))
  = Ok (py_int a, py_int b, py_int c, 0).
Proof.
  intros Ha Hb Hc Ht.
  exact (parse_semver_stable_groups _ _ a b c
           (tag_nonempty_stable a b c tail)
           (rc_no_match_stable a b c tail Ha Hb Hc Ht)
           (stable_match_tail a b c tail Ha Hb Hc Ht) eq_refl Ha Hb Hc).
Qed.

Lemma parse_rc_of_ints (M N P R : Z) :
  0 <= M -> 0 <= N -> 0 <= P -> 0 <= R ->
  parse_semver
    (Some ("v" ++ py_str M ++ "." ++ py_str N ++ "." ++ py_str P
               ++ "-rc." ++ py_str R))
  = Ok (M, N, P, R).
Proof.
  intros HM HN HP HR.
  pose proof (parse_semver_rc_decode (py_str M) (py_str N) (py_str P)
                (py_str R) "" (py_str_Digits M HM) (py_str_Digits N HN)
                (py_str_Digits P HP) (py_str_Digits R HR) (or_introl eq_refl))
    as E.
  rewrite app_nil_r_s in E. unfold rc_tag in E. rewrite E.
  now rewrite !py_int_str by assumption.
Qed.

(** X1. For non-negative [M], [N], [P], parsing the stable tag [vM.N.P]
    gives back [(M, N, P, 0)]. *)
Theorem parse_semver_stable_round_trip :
  forall M N P,
    0 <= M -> 0 <= N -> 0 <= P ->
    parse_semver (Some ("v" ++ py_str M ++ "." ++ py_str N ++ "." ++ py_str P))
    = Ok (M, N, P, 0).
Proof.
  intros M N P HM HN HP.
  pose proof (parse_semver_stable_decode (py_str M) (py_str N) (py_str P) ""
                (py_str_Digits M HM) (py_str_Digits N HN)
                (py_str_Digits P HP) (or_introl eq_refl)) as E.
  rewrite app_nil_r_s in E. unfold stable_tag in E. rewrite E.
  now rewrite !py_int_str by assumption.
Qed.

Lemma parse_semver_stable_round_trip_witness :
  parse_semver (Some "v10.0.7") = Ok (10, 0, 7, 0).
Proof.
  exact (parse_semver_stable_round_trip 10 0 7
           ltac:(lia) ltac:(lia) ltac:(lia)).
Defined.

(** X2. Whatever the tag, the four numbers [parse_semver] returns are
    non-negative. *)
Theorem parse_semver_nonneg :
  forall tag major minor patch rc,
    parse_semver tag = Ok (major, minor, patch, rc) ->
    0 <= major /\ 0 <= minor /\ 0 <= patch /\ 0 <= rc.
Proof.
  intros tag major minor patch rc H.
  assert (Z0 : forall v, Ok (0, 0, 0, 0) = Ok v ->
                         v = (major, minor, patch, rc) ->
                         0 <= major /\ 0 <= minor /\ 0 <= patch /\ 0 <= rc).
  { intros v E1 E2. injection E1 as <-. injection E2 as <- <- <- <-. lia. }
  destruct tag as [t|]; [|now apply (Z0 _ H)].
  destruct (string_dec t "") as [->|Hne]; [now apply (Z0 _ H)|].
  destruct (re_match rc_regex t) as [m|] eqn:Hrc.
  - destruct (rc_match_inv _ _ Hrc)
      as (a & b & c & d & Ha & Hb & Hc & Hd & _ & Hg).
    rewrite (parse_semver_rc_groups t m a b c d Hne Hrc Hg Ha Hb Hc Hd) in H.
    injection H as <- <- <- <-.
    repeat split; now apply py_int_nonneg.
  - destruct (re_match stable_regex t) as [m|] eqn:Hst.
    + destruct (stable_match_inv _ _ Hst)
        as (a & b & c & Ha & Hb & Hc & _ & Hg).
      rewrite (parse_semver_stable_groups t m a b c Hne Hrc Hst Hg Ha Hb Hc)
        in H.
      injection H as <- <- <- <-.
      repeat split; try (now apply py_int_nonneg). lia.
    + assert (E : parse_semver (Some t) = Ok (0, 0, 0, 0)).
      { unfold parse_semver. destruct t; [congruence|]. now rewrite Hrc, Hst. }
      rewrite E in H. now apply (Z0 _ H).
Qed.

Lemma parse_semver_nonneg_witness :
  0 <= 2 /\ 0 <= 5 /\ 0 <= 10 /\ 0 <= 99.
Proof.
  exact (parse_semver_nonneg (Some "v2.5.10-rc.99") 2 5 10 99 eq_refl).
Defined.

(** X3. The digit runs of a well-shaped tag are read as decimal numbers of
    any length, leading zeros included, and one line feed after the tag is
    ignored; a stable tag has rc 0. *)
Theorem parse_semver_reads_digit_runs :
  forall a b c d tail,
    Digits a -> Digits b -> Digits c -> Digits d ->
    tail = "" \/ tail = NL ->
    parse_semver (Some (rc_tag a b c d ++ tail))
    = Ok (py_int a, py_int b, py_int c, py_int d)
    /\ parse_semver (Some (stable_tag a b c ++ tail))
       = Ok (py_int a, py_int b, py_int c, 0).
Proof.
  intros a b c d tail Ha Hb Hc Hd Ht. split.
  - now apply parse_semver_rc_decode.
  - now apply parse_semver_stable_decode.
Qed.

Lemma parse_semver_reads_digit_runs_witness :
  parse_semver (Some (rc_tag "01" "002" "3" "04" ++ NL))
  = Ok (py_int "01", py_int "002", py_int "3", py_int "04")
  /\ parse_semver (Some (stable_tag "01" "002" "3" ++ NL))
     = Ok (py_int "01", py_int "002", py_int "3", 0).
Proof.
  apply (parse_semver_reads_digit_runs "01" "002" "3" "04" NL).
  - split; [discriminate | reflexivity].
  - split; [discriminate | reflexivity].
  - split; [discriminate | reflexivity].
  - split; [discriminate | reflexivity].
  - right; reflexivity.
Defined.

(** ** calculate_next_version, run after run *)

Lemma calculate_next_version_numbers
  (major minor patch rc depth : Z) (is_breaking is_feat from_stable : bool) :
  calculate_next_version major minor patch rc depth
    is_breaking is_feat from_stable
  = rc_version
      (next_numbers major minor patch rc depth
         is_breaking is_feat from_stable).
Proof.
  unfold calculate_next_version, next_numbers.
  destruct is_breaking; [reflexivity|].
  destruct is_feat; [destruct (from_stable || (0 <? patch)); reflexivity|].
  destruct from_stable; reflexivity.
Qed.

Lemma next_numbers_nonneg
  (major minor patch rc depth : Z) (is_breaking is_feat from_stable : bool) :
  0 <= major -> 0 <= minor -> 0 <= patch -> 0 <= rc -> 0 <= depth ->
  let '(a, b, c, d) :=
    next_numbers major minor patch rc depth is_breaking is_feat from_stable in
  0 <= a /\ 0 <= b /\ 0 <= c /\ 0 <= d.
Proof.
  intros. unfold next_numbers.
  destruct is_breaking; [lia|].
  destruct is_feat; [destruct (from_stable || (0 <? patch)); lia|].
  destruct from_stable; lia.
Qed.

Lemma parse_rc_version (v : Z * Z * Z * Z) :
  (let '(a, b, c, d) := v in 0 <= a /\ 0 <= b /\ 0 <= c /\ 0 <= d) ->
  parse_semver (Some ("v" ++ rc_version v)) = Ok v.
Proof.
  destruct v as [[[a b] c] d]. intros (Ha & Hb & Hc & Hd).
  now apply parse_rc_of_ints.
Qed.

Lemma rc_version_has_rc (v : Z * Z * Z * Z) :
  str_in "-rc" ("v" ++ rc_version v) = true.
Proof.
  destruct v as [[[a b] c] d]. apply str_in_iff.
  exists ("v" ++ py_str a ++ "." ++ py_str b ++ "." ++ py_str c),
         ("." ++ py_str d).
  unfold rc_version. now rewrite !app_assoc_s.
Qed.

(** X4. From non-negative numbers and a depth of at least 1, the version
    [calculate_next_version] returns, prefixed with [v], is read back by
    [parse_semver] as four numbers that come strictly after the input in
    the order major, minor, patch, rc, with an rc number of at least 1. *)
Theorem next_version_parses_and_advances :
  forall major minor patch rc depth is_breaking is_feat from_stable,
    0 <= major -> 0 <= minor -> 0 <= patch -> 0 <= rc -> 1 <= depth ->
    exists major' minor' patch' rc',
      parse_semver
        (Some ("v" ++ calculate_next_version major minor patch rc depth
                        is_breaking is_feat from_stable))
      = Ok (major', minor', patch', rc')
      /\ 1 <= rc'
      /\ ver_lt (major, minor, patch, rc) (major', minor', patch', rc').
Proof.
  intros major minor patch rc depth b f fs HM HN HP HR HD.
  rewrite calculate_next_version_numbers.
  pose proof (next_numbers_nonneg major minor patch rc depth b f fs
                HM HN HP HR ltac:(lia)) as Hn.
  pose proof (parse_rc_version
                (next_numbers major minor patch rc depth b f fs)) as Hp.
  destruct (next_numbers major minor patch rc depth b f fs)
    as [[[a' b'] c'] d'] eqn:E.
  exists a', b', c', d'. split; [now apply Hp|].
  unfold next_numbers in E. unfold ver_lt.
  destruct b; [injection E as <- <- <- <-; lia|].
  destruct f.
  - destruct (fs || (0 <? patch));
      injection E as <- <- <- <-; lia.
  - destruct fs; injection E as <- <- <- <-; lia.
Qed.

Lemma next_version_parses_and_advances_witness :
  exists major' minor' patch' rc',
    parse_semver
      (Some ("v" ++ calculate_next_version 1 2 3 0 4 false true true))
    = Ok (major', minor', patch', rc')
    /\ 1 <= rc'
    /\ ver_lt (1, 2, 3, 0) (major', minor', patch', rc').
Proof.
  apply (next_version_parses_and_advances 1 2 3 0 4 false true true); lia.
Defined.

(** X5. The version emitted by one run is a release-candidate tag for the
    next one ([-rc] occurs in it), and a next run that is not breaking and
    brings no feature, or brings one on a patch number of 0, only adds its
    depth to the rc number: the outcome is that of a single run of the
    first kind over both batches of commits. *)
Theorem rerun_accumulates_depth :
  forall major minor patch rc d1 d2 is_breaking is_feat from_stable,
    0 <= major -> 0 <= minor -> 0 <= patch -> 0 <= rc -> 0 <= d1 ->
    let first :=
      "v" ++ calculate_next_version major minor patch rc d1
               is_breaking is_feat from_stable in
    str_in "-rc" first = true
    /\ exists major' minor' patch' rc',
         parse_semver (Some first) = Ok (major', minor', patch', rc')
         /\ forall is_feat',
              (is_feat' = true -> patch' = 0) ->
              calculate_next_version major' minor' patch' rc' d2
                false is_feat' false
              = calculate_next_version major minor patch rc (d1 + d2)
                  is_breaking is_feat from_stable.
Proof.
  intros major minor patch rc d1 d2 b f fs HM HN HP HR HD first.
  subst first. rewrite calculate_next_version_numbers.
  split; [apply rc_version_has_rc|].
  pose proof (next_numbers_nonneg major minor patch rc d1 b f fs
                HM HN HP HR HD) as Hn.
  pose proof (parse_rc_version
                (next_numbers major minor patch rc d1 b f fs)) as Hp.
  destruct (next_numbers major minor patch rc d1 b f fs)
    as [[[a' b'] c'] d'] eqn:E.
  exists a', b', c', d'. split; [now apply Hp|].
  intros f' Hf'.
  assert (S2 : calculate_next_version a' b' c' d' d2 false f' false
               = rc_version (a', b', c', d' + d2)).
  { unfold calculate_next_version, rc_version.
    destruct f'; [|reflexivity].
    rewrite (Hf' eq_refl). reflexivity. }
  rewrite S2, calculate_next_version_numbers. f_equal.
  unfold next_numbers in *.
  destruct b; [injection E as <- <- <- <-; reflexivity|].
  destruct f.
  - destruct (fs || (0 <? patch));
      injection E as <- <- <- <-; f_equal; lia.
  - destruct fs; injection E as <- <- <- <-; f_equal; lia.
Qed.

Lemma rerun_accumulates_depth_witness :
  let first := "v" ++ calculate_next_version 1 2 3 0 2 false false true in
  str_in "-rc" first = true
  /\ exists major' minor' patch' rc',
       parse_semver (Some first) = Ok (major', minor', patch', rc')
       /\ forall is_feat',
            (is_feat' = true -> patch' = 0) ->
            calculate_next_version major' minor' patch' rc' 5
              false is_feat' false
            = calculate_next_version 1 2 3 0 (2 + 5) false false true.
Proof.
  apply (rerun_accumulates_depth 1 2 3 0 2 5 false false true); lia.
Defined.

(** ** The queries *)

(** X7. When [find_baseline_tag] returns, it has run the tag listing once
    and written nothing.  No tag is returned exactly when the listing fails
    with [CalledProcessError] or is empty once stripped; otherwise the tag
    is the first line of the stripped listing, a non-empty text without
    line feed.  [from_stable] is false exactly when a tag is returned and
    [-rc] occurs in it.  One line is printed, naming the tag found. *)
Theorem find_baseline_tag_result :
  forall w st tag from_stable st1,
    find_baseline_tag w st = (Ret (tag, from_stable), st1) ->
    calls st1 = (calls st ++ [tag_query])%list
    /\ writes st1 = writes st
    /\ (from_stable = false <-> exists t, tag = Some t /\ Contains "-rc" t)
    /\ match tag with
       | None =>
           stdout st1
           = (stdout st
                ++ ["INFO: No tags found. Assuming 0.0.0 baseline."])%list
           /\ ((exists e,
                   subprocess_run w tag_query false = inl e
                   /\ is_CalledProcessError e = true)
               \/ exists out,
                   subprocess_run w tag_query false = inr out
                   /\ strip out = "")
       | Some t =>
           t <> "" /\ one_line t = true
           /\ (exists out,
                  subprocess_run w tag_query false = inr out
                  /\ t = first_line (strip out))
           /\ stdout st1
              = (stdout st
                   ++ [("INFO: Baseline found ("
                          ++ (if from_stable then "Stable" else "RC")
                          ++ "): " ++ t)%string])%list
       end.
Proof.
  intros w st tag fs st1 H.
  pose proof (find_baseline_tag_state w st) as [Hc Hw].
  rewrite H in Hc, Hw. simpl in Hc, Hw.
  split; [exact Hc|]. split; [exact Hw|].
  assert (Htag : forall t, tag = Some t -> t <> "" /\ one_line t = true).
  { intros t ->. exact (find_baseline_tag_tag _ _ _ _ _ H). }
  revert H. unfold find_baseline_tag, bind, run_git_command, tag_query.
  destruct (subprocess_run w _ false) as [e | out] eqn:S.
  - destruct (is_CalledProcessError e) eqn:C; [|discriminate].
    unfold print. simpl. intros H. injection H as <- <- <-. simpl.
    split; [|split; [reflexivity | left; eauto]].
    split; [discriminate|]. intros (t & X & _). discriminate.
  - destruct (strip out) as [|c t] eqn:E.
    + unfold print. simpl. intros H. injection H as <- <- <-. simpl.
      split; [|split; [reflexivity | right; eauto]].
      split; [discriminate|]. intros (t & X & _). discriminate.
    + cbn [truthy negb].
      change (hd "" (split_char LF (String c t)))
        with (first_line (String c t)).
      destruct (str_in "-rc" (first_line (String c t))) eqn:R;
        unfold print; simpl; intros H; injection H as <- <- <-; simpl.
      * split.
        -- split; [intros _ | reflexivity].
           eexists. split; [reflexivity|]. now apply str_in_iff.
        -- destruct (Htag _ eq_refl) as [Hne Hl].
           split; [exact Hne|]. split; [exact Hl|].
           split; [|reflexivity]. exists out. now rewrite E.
      * split.
        -- split; [discriminate|]. intros (t' & X & Y).
           injection X as <-. apply str_in_iff in Y. congruence.
        -- destruct (Htag _ eq_refl) as [Hne Hl].
           split; [exact Hne|]. split; [exact Hl|].
           split; [|reflexivity]. exists out. now rewrite E.
Qed.

Lemma find_baseline_tag_result_witness :
  let w := sample_world (Some "next")
             ("v1.3.0-rc.2" ++ NL ++ "v1.2.0" ++ NL) "" "" in
  calls (MkState ["INFO: Baseline found (RC): v1.3.0-rc.2"] [tag_query] [])
  = (calls st0 ++ [tag_query])%list
  /\ writes (MkState ["INFO: Baseline found (RC): v1.3.0-rc.2"]
               [tag_query] [])
     = writes st0
  /\ (false = false <->
      exists t, Some "v1.3.0-rc.2" = Some t /\ Contains "-rc" t)
  /\ ("v1.3.0-rc.2" <> "" /\ one_line "v1.3.0-rc.2" = true
      /\ (exists out,
             subprocess_run w tag_query false = inr out
             /\ "v1.3.0-rc.2" = first_line (strip out))
      /\ stdout (MkState ["INFO: Baseline found (RC): v1.3.0-rc.2"]
                   [tag_query] [])
         = (stdout st0
              ++ [("INFO: Baseline found (" ++ "RC" ++ "): "
                     ++ "v1.3.0-rc.2")%string])%list).
Proof.
  exact (find_baseline_tag_result
           (sample_world (Some "next")
              ("v1.3.0-rc.2" ++ NL ++ "v1.2.0" ++ NL) "" "")
           st0 (Some "v1.3.0-rc.2") false
           (MkState ["INFO: Baseline found (RC): v1.3.0-rc.2"]
              [tag_query] [])
           eq_refl).
Defined.

Lemma analyze_impact_state w tag st :
  snd (analyze_impact w tag st)
  = MkState (stdout st) (calls st ++ [body_query tag]) (writes st).
Proof.
  unfold analyze_impact, bind, body_query.
  pose proof (run_git_command_state w
                ["log"; rev_range tag; "--pretty=format:%B"] false st) as E.
  destruct (run_git_command _ _ _ st) as [[o | e | c] st1]; simpl in E;
    subst st1; try reflexivity.
  destruct o as [logs|]; [|reflexivity].
  destruct (negb (truthy (Some logs))); reflexivity.
Qed.

(** A query followed by steps that always complete raises exactly what
    [subprocess.run] raises, [CalledProcessError] apart. *)
Lemma bind_run_git_raise {B} w args (k : option string -> M B) st e st' :
  (forall o s, exists b s', k o s = (Ret b, s')) ->
  bind (run_git_command w args false) k st = (Raise e, st') <->
  subprocess_run w ("git" :: args) false = inl e
  /\ is_CalledProcessError e = false
  /\ st' = MkState (stdout st) (calls st ++ ["git" :: args]) (writes st).
Proof.
  intros Hk. unfold bind, run_git_command.
  destruct (subprocess_run w ("git" :: args) false) as [x | out].
  - destruct (is_CalledProcessError x) eqn:C.
    + destruct (Hk None
                  (MkState (stdout st) (calls st ++ ["git" :: args])
                     (writes st))) as (b & s' & ->).
      split; [discriminate|]. intros (X & Y & _). injection X as <-.
      congruence.
    + split.
      * intros H. injection H as <- <-. auto.
      * intros (X & _ & ->). now injection X as <-.
  - destruct (Hk (Some (strip out))
                (MkState (stdout st) (calls st ++ ["git" :: args])
                   (writes st))) as (b & s' & ->).
    split; [discriminate|]. intros (X & _). discriminate.
Qed.

(** X8. Each of the three queries raises exactly when [subprocess.run]
    raises something other than [CalledProcessError] on its command, and
    then hands on that very exception, having recorded the command and
    printed nothing. *)
Theorem queries_hand_on_other_errors :
  forall w tag st e st',
    (find_baseline_tag w st = (Raise e, st') <->
     subprocess_run w tag_query false = inl e
     /\ is_CalledProcessError e = false
     /\ st' = MkState (stdout st) (calls st ++ [tag_query]) (writes st))
    /\ (get_commit_depth w tag st = (Raise e, st') <->
        subprocess_run w (subject_query tag) false = inl e
        /\ is_CalledProcessError e = false
        /\ st' = MkState (stdout st) (calls st ++ [subject_query tag])
                   (writes st))
    /\ (analyze_impact w tag st = (Raise e, st') <->
        subprocess_run w (body_query tag) false = inl e
        /\ is_CalledProcessError e = false
        /\ st' = MkState (stdout st) (calls st ++ [body_query tag])
                   (writes st)).
Proof.
  intros w tag st e st'. split; [|split].
  - unfold find_baseline_tag, tag_query. apply bind_run_git_raise.
    intros o s. destruct (negb (truthy o)); [unfold bind, print, ret; eauto|].
    destruct (str_in "-rc" _); unfold bind, print, ret; eauto.
  - unfold get_commit_depth, subject_query. apply bind_run_git_raise.
    intros [raw|] s; [|unfold ret; eauto].
    destruct (negb (truthy (Some raw))); unfold ret; eauto.
  - unfold analyze_impact, body_query. apply bind_run_git_raise.
    intros [logs|] s; [|unfold ret; eauto].
    destruct (negb (truthy (Some logs))); unfold ret; eauto.
Qed.

Lemma filter_length_le {A} (f : A -> bool) (l : list A) :
  (List.length (filter f l) <= List.length l)%nat.
Proof.
  induction l as [|x l IH]; simpl; [lia|]. destruct (f x); simpl; lia.
Qed.

Lemma no_real_iff (l : list string) :
  Forall (fun s => one_line s = true) l ->
  List.length (filter (fun s => negb (skipped s)) l) = 0%nat
  <-> Forall Excluded l.
Proof.
  induction 1 as [|s l Hs _ IH]; simpl; [split; constructor|].
  destruct (skipped s) eqn:E; simpl.
  - rewrite IH. split.
    + intros X. constructor; [now apply skipped_spec | assumption].
    + intros X. now inversion X.
  - split; [discriminate|]. intros X. inversion X as [|? ? Hx _]; subst.
    apply (skipped_spec s Hs) in Hx. congruence.
Qed.

(** X9. The depth lies between 0 and the number of lines of the subject
    listing, and it is 0 exactly when the listing is empty or absent or
    every one of its lines is left out of the count. *)
Theorem get_commit_depth_zero_iff :
  forall w tag st o,
    fst (run_git_command w
           ["log"; rev_range tag; "--first-parent"; "--pretty=format:%s"]
           false st) = Ret o ->
    exists depth,
      fst (get_commit_depth w tag st) = Ret depth
      /\ 0 <= depth <= Z.of_nat (List.length (split_char LF (text_of o)))
      /\ (depth = 0 <->
          text_of o = "" \/ Forall Excluded (split_char LF (text_of o))).
Proof.
  intros w tag st o H.
  assert (E : fst (get_commit_depth w tag st)
              = match o with
                | Some (String c raw) =>
                    Ret (Z.of_nat
                           (List.length
                              (collect_real (split_char LF (String c raw)) [])))
                | _ => Ret 0
                end).
  { unfold get_commit_depth, bind.
    destruct (run_git_command _ _ _ st) as [r st'] eqn:R.
    simpl in H. subst r. destruct o as [[|c raw]|]; reflexivity. }
  rewrite E. destruct o as [[|c raw]|].
  - exists 0. simpl. split; [reflexivity|]. split; [lia|]. tauto.
  - eexists. split; [reflexivity|]. rewrite collect_real_length.
    cbn [text_of List.length Nat.add].
    pose proof (filter_length_le (fun s => negb (skipped s))
                  (split_char LF (String c raw))) as Hle.
    split; [lia|].
    pose proof (no_real_iff _ (split_one_line (String c raw))) as Hz.
    split.
    + intros X. right. apply Hz. lia.
    + intros [X | X]; [discriminate|]. apply Hz in X. lia.
  - exists 0. simpl. split; [reflexivity|]. split; [lia|]. tauto.
Qed.

Lemma get_commit_depth_zero_iff_witness :
  exists depth,
    fst (get_commit_depth
           (sample_world None "v1.0.0"
              ("chore(main): release 1.0.1" ++ NL ++ "Release-As: 1.0.1") "")
           (Some "v1.0.0") st0)
    = Ret depth
    /\ 0 <= depth
       <= Z.of_nat
            (List.length
               (split_char LF
                  (text_of
                     (Some ("chore(main): release 1.0.1" ++ NL
                              ++ "Release-As: 1.0.1")))))
    /\ (depth = 0 <->
        text_of (Some ("chore(main): release 1.0.1" ++ NL
                         ++ "Release-As: 1.0.1")) = ""
        \/ Forall Excluded
             (split_char LF
                (text_of
                   (Some ("chore(main): release 1.0.1" ++ NL
                            ++ "Release-As: 1.0.1"))))).
Proof.
  exact (get_commit_depth_zero_iff
           (sample_world None "v1.0.0"
              ("chore(main): release 1.0.1" ++ NL ++ "Release-As: 1.0.1") "")
           (Some "v1.0.0") st0
           (Some ("chore(main): release 1.0.1" ++ NL ++ "Release-As: 1.0.1"))
           eq_refl).
Defined.

(** ** main, step by step *)

Lemma parse_semver_total (tag : option string) :
  exists major minor patch rc,
    parse_semver tag = Ok (major, minor, patch, rc).
Proof.
  destruct tag as [t|]; [|now exists 0, 0, 0, 0].
  destruct (string_dec t "") as [->|Hne]; [now exists 0, 0, 0, 0|].
  destruct (re_match rc_regex t) as [m|] eqn:Hrc.
  - destruct (rc_match_inv _ _ Hrc)
      as (a & b & c & d & Ha & Hb & Hc & Hd & _ & Hg).
    rewrite (parse_semver_rc_groups t m a b c d Hne Hrc Hg Ha Hb Hc Hd).
    eauto.
  - destruct (re_match stable_regex t) as [m|] eqn:Hst.
    + destruct (stable_match_inv _ _ Hst)
        as (a & b & c & Ha & Hb & Hc & _ & Hg).
      rewrite (parse_semver_stable_groups t m a b c Hne Hrc Hst Hg Ha Hb Hc).
      eauto.
    + exists 0, 0, 0, 0. unfold parse_semver.
      destruct t; [congruence|]. now rewrite Hrc, Hst.
Qed.

(** X10. On the release-candidate path, when the three queries return, the
    depth is not 0 and the output file opens, [main] returns normally
    having run exactly the tag listing, the subject listing and the
    message-body listing, in this order, printed nothing of its own, and
    appended one line: [next_version=] followed by the version computed
    from the parsed tag, the depth, the two impact flags and
    [from_stable]. *)
Theorem rc_path_emits_next_version :
  forall w st tag from_stable st1 depth st2 is_breaking is_feat st3 path,
    on_stable_branch (environ w "GITHUB_REF_NAME") = false ->
    find_baseline_tag w st = (Ret (tag, from_stable), st1) ->
    get_commit_depth w tag st1 = (Ret depth, st2) ->
    depth <> 0 ->
    analyze_impact w tag st2 = (Ret (is_breaking, is_feat), st3) ->
    environ w "GITHUB_OUTPUT" = Some path ->
    open_append w path = None ->
    exists major minor patch rc,
      parse_semver tag = Ok (major, minor, patch, rc)
      /\ main w st
         = (Ret tt,
            MkState
              (stdout st1)
              (calls st ++ [tag_query; subject_query tag; body_query tag])
              (writes st
                 ++ [(path,
                      output_line
                        (calculate_next_version major minor patch rc depth
                           is_breaking is_feat from_stable))])).
Proof.
  intros w st tag fs st1 depth st2 b f st3 path Hb Hf Hd Hz Ha He Ho.
  destruct (parse_semver_total tag) as (major & minor & patch & rc & Hp).
  exists major, minor, patch, rc. split; [exact Hp|].
  pose proof (find_baseline_tag_state w st) as [Hc Hw].
  rewrite Hf in Hc, Hw. simpl in Hc, Hw.
  pose proof (get_commit_depth_state w tag st1) as Hs2.
  rewrite Hd in Hs2. simpl in Hs2.
  pose proof (analyze_impact_state w tag st2) as Hs3.
  rewrite Ha in Hs3. simpl in Hs3.
  unfold main. rewrite Hb. unfold try_except, bind. rewrite Hf, Hd.
  apply Z.eqb_neq in Hz. rewrite Hz, Hp. cbn [lift ret].
  rewrite Ha. unfold environ_item. rewrite He. unfold ret, append_file.
  rewrite Ho. subst st3 st2. cbn [stdout calls writes].
  rewrite Hc, Hw, <- !app_assoc. reflexivity.
Qed.

Lemma rc_path_emits_next_version_witness :
  exists major minor patch rc,
    parse_semver (Some "v1.2.0-rc.2") = Ok (major, minor, patch, rc)
    /\ main (sample_world (Some "next") "v1.2.0-rc.2"
               ("fix: one" ++ NL ++ "feat: two") "feat: two") st0
       = (Ret tt,
          MkState
            (stdout (MkState ["INFO: Baseline found (RC): v1.2.0-rc.2"]
                       [tag_query] []))
            (calls st0
               ++ [tag_query; subject_query (Some "v1.2.0-rc.2");
                   body_query (Some "v1.2.0-rc.2")])
            (writes st0
               ++ [("/tmp/github_output",
                    output_line
                      (calculate_next_version major minor patch rc 2
                         false true false))])).
Proof.
  apply (rc_path_emits_next_version
           (sample_world (Some "next") "v1.2.0-rc.2"
              ("fix: one" ++ NL ++ "feat: two") "feat: two")
           st0 (Some "v1.2.0-rc.2") false
           (MkState ["INFO: Baseline found (RC): v1.2.0-rc.2"]
              [tag_query] [])
           2
           (MkState ["INFO: Baseline found (RC): v1.2.0-rc.2"]
              [tag_query; subject_query (Some "v1.2.0-rc.2")] [])
           false true
           (MkState ["INFO: Baseline found (RC): v1.2.0-rc.2"]
              [tag_query; subject_query (Some "v1.2.0-rc.2");
               body_query (Some "v1.2.0-rc.2")] [])
           "/tmp/github_output");
    try reflexivity.
  discriminate.
Defined.

Ltac exit_free F :=
  match type of F with
  | ?m ?s = (Exit ?c, ?s') =>
      exfalso; revert F;
      first [ apply no_exit_find_baseline_tag
            | apply no_exit_get_commit_depth
            | apply no_exit_analyze_impact ]
  end.

Ltac critical_line :=
  split; [reflexivity|]; eexists _, _; simpl; reflexivity.

(** X11. Whatever the surroundings, [main] returns normally or leaves
    through [sys.exit(0)].  It runs the tag listing first, then at most two
    more commands, and none on the stable-promotion path.  It appends at
    most once, then one [next_version=] line to the path [GITHUB_OUTPUT]
    names, and only when it returns normally; when it exits, nothing has
    been appended and the last line printed begins with
    [CRITICAL ERROR]. *)
Theorem main_outcome :
  forall w st,
    (fst (main w st) = Ret tt \/ fst (main w st) = Exit 0)
    /\ (exists cmds,
           calls (snd (main w st)) = (calls st ++ tag_query :: cmds)%list
           /\ (List.length cmds <= 2)%nat
           /\ (on_stable_branch (environ w "GITHUB_REF_NAME") = true ->
               cmds = []))
    /\ (writes (snd (main w st)) = writes st
        \/ fst (main w st) = Ret tt
           /\ exists path v,
                environ w "GITHUB_OUTPUT" = Some path
                /\ writes (snd (main w st))
                   = (writes st ++ [(path, output_line v)])%list)
    /\ (fst (main w st) = Exit 0 ->
        writes (snd (main w st)) = writes st
        /\ exists printed msg,
             stdout (snd (main w st))
             = (printed ++ [("CRITICAL ERROR" ++ msg)%string])%list).
Proof.
  intros w st. unfold main.
  pose proof (find_baseline_tag_state w st) as [Hc Hw].
  destruct (on_stable_branch (environ w "GITHUB_REF_NAME")) eqn:Hb.
  - unfold try_except, bind.
    destruct (find_baseline_tag w st) as [[[tag fs] | e | c] st1] eqn:F;
      simpl in Hc, Hw; [| |exit_free F].
    + unfold print, environ_item. cbn [fst snd stdout calls writes].
      destruct (environ w "GITHUB_OUTPUT") as [path|] eqn:He.
      * unfold ret, append_file.
        destruct (open_append w path) as [e|] eqn:Ho;
          cbn [fst snd stdout calls writes]; rewrite Hc, Hw.
        -- split; [now right|]. split; [exists []; auto|].
           split; [now left|]. intros _. critical_line.
        -- split; [now left|]. split; [exists []; auto|].
           split; [|discriminate]. right. split; [reflexivity|].
           exists path, (stable_version_of tag). auto.
      * unfold raise. cbn [fst snd stdout calls writes]. rewrite Hc, Hw.
        split; [now right|]. split; [exists []; auto|].
        split; [now left|]. intros _. critical_line.
    + unfold print, sys_exit. cbn [fst snd stdout calls writes].
      rewrite Hc, Hw.
      split; [now right|]. split; [exists []; auto|].
      split; [now left|]. intros _. critical_line.
  - unfold try_except, bind.
    destruct (find_baseline_tag w st) as [[[tag fs] | e | c] st1] eqn:F;
      simpl in Hc, Hw; [| |exit_free F].
    + pose proof (get_commit_depth_state w tag st1) as Hs2.
      destruct (get_commit_depth w tag st1) as [[depth | e | c] st2] eqn:D;
        simpl in Hs2; subst st2; [| |exit_free D].
      * destruct (depth =? 0).
        -- unfold print. cbn [fst snd stdout calls writes].
           rewrite Hc, Hw, <- app_assoc.
           split; [now left|].
           split; [exists [subject_query tag];
                   split; [reflexivity | split; [simpl; lia | discriminate]]|].
           split; [now left | discriminate].
        -- destruct (parse_semver_total tag)
             as (major & minor & patch & rc & ->). cbn [lift ret].
           pose proof (analyze_impact_state w tag
                         (MkState (stdout st1)
                            (calls st1 ++ [subject_query tag]) (writes st1)))
             as Hs3.
           unfold subject_query in Hs3.
           destruct (analyze_impact w tag _) as [[[b f] | e | c] st3] eqn:A;
             simpl in Hs3; subst st3; [| |exit_free A].
           ++ unfold environ_item.
              destruct (environ w "GITHUB_OUTPUT") as [path|] eqn:He.
              ** unfold ret, append_file.
                 destruct (open_append w path) as [e|] eqn:Ho;
                   unfold print, sys_exit;
                   cbn [fst snd stdout calls writes];
                   rewrite Hc, Hw, <- !app_assoc.
                 --- split; [now right|].
                     split; [exists [subject_query tag; body_query tag];
                             split; [reflexivity
                                    | split; [simpl; lia | discriminate]]|].
                     split; [now left|]. intros _. critical_line.
                 --- split; [now left|].
                     split; [exists [subject_query tag; body_query tag];
                             split; [reflexivity
                                    | split; [simpl; lia | discriminate]]|].
                     split; [|discriminate]. right. split; [reflexivity|].
                     eexists path, _. split; reflexivity.
              ** unfold raise, print, sys_exit.
                 cbn [fst snd stdout calls writes].
                 rewrite Hc, Hw, <- !app_assoc.
                 split; [now right|].
                 split; [exists [subject_query tag; body_query tag];
                         split; [reflexivity
                                | split; [simpl; lia | discriminate]]|].
                 split; [now left|]. intros _. critical_line.
           ++ unfold print, sys_exit. cbn [fst snd stdout calls writes].
              rewrite Hc, Hw, <- !app_assoc.
              split; [now right|].
              split; [exists [subject_query tag; body_query tag];
                      split; [reflexivity
                             | split; [simpl; lia | discriminate]]|].
              split; [now left|]. intros _. critical_line.
      * unfold print, sys_exit. cbn [fst snd stdout calls writes].
        rewrite Hc, Hw, <- !app_assoc.
        split; [now right|].
        split; [exists [subject_query tag];
                split; [reflexivity | split; [simpl; lia | discriminate]]|].
        split; [now left|]. intros _. critical_line.
    + unfold print, sys_exit. cbn [fst snd stdout calls writes].
      rewrite Hc, Hw.
      split; [now right|].
      split; [exists []; split; [reflexivity
                                | split; [simpl; lia | discriminate]]|].
      split; [now left|]. intros _. critical_line.
Qed.

Lemma find_baseline_tag_none w st from_stable st1 :
  find_baseline_tag w st = (Ret (None, from_stable), st1) ->
  from_stable = true
  /\ st1 = MkState
             (stdout st ++ ["INFO: No tags found. Assuming 0.0.0 baseline."])
             (calls st ++ [tag_query]) (writes st).
Proof.
  unfold find_baseline_tag, bind, run_git_command, tag_query.
  destruct (subprocess_run w _ false) as [e | out].
  - destruct (is_CalledProcessError e); [|discriminate].
    unfold print. simpl. intros H. injection H as <- <-. auto.
  - destruct (strip out) as [|c t].
    + unfold print. simpl. intros H. injection H as <- <-. auto.
    + cbn [truthy negb]. destruct (str_in "-rc" _); discriminate.
Qed.

(** X12. On the stable-promotion path, when the tag listing yields no tag
    and the output file opens, [main] appends [next_version=0.1.0], having
    printed that it assumes a 0.0.0 baseline and that it detected tag
    [None]; the tag listing is the only command run. *)
Theorem stable_promotion_without_tag :
  forall w st from_stable st1 path,
    on_stable_branch (environ w "GITHUB_REF_NAME") = true ->
    find_baseline_tag w st = (Ret (None, from_stable), st1) ->
    environ w "GITHUB_OUTPUT" = Some path ->
    open_append w path = None ->
    main w st
    = (Ret tt,
       MkState
         (stdout st
            ++ ["INFO: No tags found. Assuming 0.0.0 baseline.";
                "INFO: Detected tag None, promoting to 0.1.0"])
         (calls st ++ [tag_query])
         (writes st ++ [(path, output_line "0.1.0")])).
Proof.
  intros w st fs st1 path Hb Hf He Ho.
  destruct (find_baseline_tag_none _ _ _ _ Hf) as [-> ->].
  unfold main. rewrite Hb. unfold try_except, bind. rewrite Hf.
  cbn [fst fmt_opt stable_version_of]. unfold print at 1.
  unfold environ_item. rewrite He. unfold ret, append_file. rewrite Ho.
  cbn [stdout calls writes]. rewrite <- app_assoc. reflexivity.
Qed.

Lemma stable_promotion_without_tag_witness :
  main (sample_world (Some "master") ("  " ++ NL) "" "") st0
  = (Ret tt,
     MkState
       (stdout st0
          ++ ["INFO: No tags found. Assuming 0.0.0 baseline.";
              "INFO: Detected tag None, promoting to 0.1.0"])
       (calls st0 ++ [tag_query])
       (writes st0 ++ [("/tmp/github_output", output_line "0.1.0")])).
Proof.
  exact (stable_promotion_without_tag
           (sample_world (Some "master") ("  " ++ NL) "" "") st0 true
           (MkState ["INFO: No tags found. Assuming 0.0.0 baseline."]
              [tag_query] [])
           "/tmp/github_output" eq_refl eq_refl eq_refl eq_refl).
Defined.

(** X13. [GITHUB_OUTPUT] is read last.  On the release-candidate path,
    when the three queries return, the depth is not 0 and the variable is
    not set, all three commands have been run before [main] prints
    [CRITICAL ERROR: 'GITHUB_OUTPUT'] and leaves through [sys.exit(0)];
    nothing is appended. *)
Theorem missing_output_variable_is_reported_last :
  forall w st tag from_stable st1 depth st2 is_breaking is_feat st3,
    on_stable_branch (environ w "GITHUB_REF_NAME") = false ->
    find_baseline_tag w st = (Ret (tag, from_stable), st1) ->
    get_commit_depth w tag st1 = (Ret depth, st2) ->
    depth <> 0 ->
    analyze_impact w tag st2 = (Ret (is_breaking, is_feat), st3) ->
    environ w "GITHUB_OUTPUT" = None ->
    main w st
    = (Exit 0,
       MkState
         (stdout st1 ++ ["CRITICAL ERROR: 'GITHUB_OUTPUT'"])
         (calls st ++ [tag_query; subject_query tag; body_query tag])
         (writes st)).
Proof.
  intros w st tag fs st1 depth st2 b f st3 Hb Hf Hd Hz Ha He.
  destruct (parse_semver_total tag) as (major & minor & patch & rc & Hp).
  pose proof (find_baseline_tag_state w st) as [Hc Hw].
  rewrite Hf in Hc, Hw. simpl in Hc, Hw.
  pose proof (get_commit_depth_state w tag st1) as Hs2.
  rewrite Hd in Hs2. simpl in Hs2.
  pose proof (analyze_impact_state w tag st2) as Hs3.
  rewrite Ha in Hs3. simpl in Hs3.
  unfold main. rewrite Hb. unfold try_except, bind. rewrite Hf, Hd.
  apply Z.eqb_neq in Hz. rewrite Hz, Hp. cbn [lift ret].
  rewrite Ha. unfold environ_item. rewrite He. unfold raise, print, sys_exit.
  subst st3 st2. cbn [stdout calls writes exn_str].
  rewrite Hc, Hw, <- !app_assoc. reflexivity.
Qed.

Lemma missing_output_variable_is_reported_last_witness :
  main (MkWorld
          (fun key => if (key =? "GITHUB_REF_NAME")%string then Some "next"
                      else None)
          (fun cmd _ => sample_git "v1.0.0" "fix: one" "fix: one" cmd)
          (fun _ => None)) st0
  = (Exit 0,
     MkState
       (stdout (MkState ["INFO: Baseline found (Stable): v1.0.0"]
                  [tag_query] [])
          ++ ["CRITICAL ERROR: 'GITHUB_OUTPUT'"])
       (calls st0
          ++ [tag_query; subject_query (Some "v1.0.0");
              body_query (Some "v1.0.0")])
       (writes st0)).
Proof.
  apply (missing_output_variable_is_reported_last
           (MkWorld
              (fun key => if (key =? "GITHUB_REF_NAME")%string
                          then Some "next" else None)
              (fun cmd _ => sample_git "v1.0.0" "fix: one" "fix: one" cmd)
              (fun _ => None))
           st0 (Some "v1.0.0") true
           (MkState ["INFO: Baseline found (Stable): v1.0.0"] [tag_query] [])
           1
           (MkState ["INFO: Baseline found (Stable): v1.0.0"]
              [tag_query; subject_query (Some "v1.0.0")] [])
           false false
           (MkState ["INFO: Baseline found (Stable): v1.0.0"]
              [tag_query; subject_query (Some "v1.0.0");
               body_query (Some "v1.0.0")] []));
    try reflexivity.
  discriminate.
Defined.

(** ** Promotion to a stable version *)

Lemma before_prefix (needle s : string) :
  exists t, s = before needle s ++ t.
Proof.
  induction s as [|c s (t & IH)]; simpl.
  - destruct (startswith needle ""); now exists "".
  - destruct (startswith needle (String c s)).
    + now exists (String c s).
    + exists t. simpl. now rewrite <- IH.
Qed.

Lemma startswith_nil (needle : string) :
  needle <> "" -> startswith needle "" = false.
Proof. destruct needle; [congruence | reflexivity]. Qed.

(** What stands before the first occurrence holds no occurrence. *)
Lemma before_free (needle s : string) :
  needle <> "" -> str_in needle (before needle s) = false.
Proof.
  intros Hn. induction s as [|c s IH]; simpl.
  - destruct (startswith needle ""); simpl; now rewrite startswith_nil.
  - destruct (startswith needle (String c s)) eqn:E.
    + simpl. now rewrite startswith_nil.
    + cbn [str_in]. rewrite IH.
      destruct (startswith needle (String c (before needle s))) eqn:E';
        [|reflexivity].
      apply startswith_iff in E'. destruct E' as (r & E').
      destruct (before_prefix needle s) as (t & Ht).
      assert (X : startswith needle (String c s) = true).
      { apply startswith_iff. exists (r ++ t).
        rewrite <- app_assoc_s, <- E'. simpl. now rewrite <- Ht. }
      congruence.
Qed.

Lemma str_in_lstrip (needle : string) (p : ascii -> bool) (s : string) :
  str_in needle s = false -> str_in needle (lstrip_by p s) = false.
Proof.
  induction s as [|c s IH]; [trivial|]. intros H. cbn [lstrip_by].
  destruct (p c); [|exact H]. apply IH. cbn [str_in] in H.
  now destruct (startswith needle (String c s)).
Qed.

Lemma stable_version_of_some (t : string) :
  one_line t = true -> t <> "" ->
  stable_version_of (Some t) = lstrip_char "v" (before "-rc" t).
Proof.
  intros Hl Hne. unfold stable_version_of, re_sub.
  destruct t; [congruence|]. cbn [truthy negb].
  now rewrite sub_scan_rc_suffix.
Qed.

Lemma stable_version_clean (tag : option string) :
  one_line (text_of tag) = true ->
  str_in "-rc" (stable_version_of tag) = false
  /\ startswith "v" (stable_version_of tag) = false.
Proof.
  destruct tag as [t|]; intros Hl; [|split; reflexivity].
  destruct (string_dec t "") as [->|Hne]; [split; reflexivity|].
  rewrite (stable_version_of_some t Hl Hne). split.
  - apply str_in_lstrip, before_free. discriminate.
  - destruct (lstrip_char_spec "v" (before "-rc" t)) as (n & _ & H).
    exact H.
Qed.

(** X14. For a baseline tag without line feed, the version [main] promotes
    to holds no [-rc] and does not begin with [v]; the same is true of the
    [0.1.0] it takes when there is no tag. *)
Theorem promoted_version_is_clean :
  forall tag,
    one_line (text_of tag) = true ->
    str_in "-rc" (stable_version_of tag) = false
    /\ startswith "v" (stable_version_of tag) = false.
Proof. exact stable_version_clean. Qed.

Lemma promoted_version_is_clean_witness :
  str_in "-rc" (stable_version_of (Some "vv2.0.0-rc.1-rc.2")) = false
  /\ startswith "v" (stable_version_of (Some "vv2.0.0-rc.1-rc.2")) = false.
Proof.
  exact (promoted_version_is_clean (Some "vv2.0.0-rc.1-rc.2") eq_refl).
Defined.

Lemma Digits_not_hyphen (s : string) :
  Digits s -> str_forall not_hyphen s = true.
Proof.
  apply Digits_forall. intros c Hc. unfold not_hyphen.
  now rewrite (is_digit_neq c "-" Hc eq_refl).
Qed.

Lemma Digits_one_line (s : string) : Digits s -> one_line s = true.
Proof.
  apply Digits_forall. intros c Hc. unfold cmatch.
  now rewrite (is_digit_neq c LF Hc eq_refl).
Qed.

Lemma startswith_head (a : ascii) (l : string) (c : ascii) (s : string) :
  (a =? c)%char = false -> startswith (String a l) (String c s) = false.
Proof. intros H. cbn [startswith]. now rewrite H. Qed.

Lemma before_rc_plain (p q : string) :
  str_forall not_hyphen p = true ->
  (q = "" \/ startswith "-rc" q = true) ->
  before "-rc" (p ++ q) = p.
Proof.
  intros Hp Hq. induction p as [|c p IH].
  - change ("" ++ q) with q. destruct Hq as [-> | Hq]; [reflexivity|].
    destruct q as [|x q]; [reflexivity|].
    cbn [before]. now rewrite Hq.
  - cbn [str_forall] in Hp. apply andb_true_iff in Hp.
    destruct Hp as [Hc Hp]. unfold not_hyphen in Hc.
    apply negb_true_iff in Hc. rewrite Ascii.eqb_sym in Hc.
    change (String c p ++ q) with (String c (p ++ q)).
    cbn [before]. rewrite (startswith_head "-" "rc" c (p ++ q) Hc).
    now rewrite (IH Hp).
Qed.

Lemma lstrip_v_digits (a rest : string) :
  Digits a -> lstrip_char "v" ("v" ++ a ++ rest) = a ++ rest.
Proof.
  intros [Hne Ha]. destruct a as [|c a]; [congruence|].
  cbn [str_forall] in Ha. apply andb_true_iff in Ha. destruct Ha as [Hc _].
  unfold lstrip_char. simpl.
  now rewrite (is_digit_neq c "v" Hc eq_refl).
Qed.

(** X15. A well-shaped tag, stable or release candidate, is promoted to
    its three numbers as they are written, [M.N.P]; with [v] before it,
    that version parses as the stable tag of the same numbers. *)
Theorem promotion_of_well_shaped_tags :
  forall a b c d,
    Digits a -> Digits b -> Digits c -> Digits d ->
    stable_version_of (Some (rc_tag a b c d)) = a ++ "." ++ b ++ "." ++ c
    /\ stable_version_of (Some (stable_tag a b c)) = a ++ "." ++ b ++ "." ++ c
    /\ parse_semver
         (Some ("v" ++ stable_version_of (Some (rc_tag a b c d))))
       = Ok (py_int a, py_int b, py_int c, 0).
Proof.
  intros a b c d Ha Hb Hc Hd.
  assert (Hplain : str_forall not_hyphen ("v" ++ a ++ "." ++ b ++ "." ++ c)
                   = true).
  { rewrite !str_forall_app.
    now rewrite (Digits_not_hyphen a Ha), (Digits_not_hyphen b Hb),
      (Digits_not_hyphen c Hc). }
  assert (Hline : one_line ("v" ++ a ++ "." ++ b ++ "." ++ c) = true).
  { rewrite !one_line_app.
    now rewrite (Digits_one_line a Ha), (Digits_one_line b Hb),
      (Digits_one_line c Hc). }
  assert (R : stable_version_of (Some (rc_tag a b c d))
              = a ++ "." ++ b ++ "." ++ c).
  { rewrite stable_version_of_some.
    - assert (E : rc_tag a b c d
                  = ("v" ++ a ++ "." ++ b ++ "." ++ c) ++ "-rc." ++ d).
      { unfold rc_tag. now rewrite !app_assoc_s. }
      rewrite E, (before_rc_plain _ ("-rc." ++ d) Hplain (or_intror eq_refl)).
      now apply lstrip_v_digits.
    - assert (E : rc_tag a b c d
                  = ("v" ++ a ++ "." ++ b ++ "." ++ c) ++ "-rc." ++ d).
      { unfold rc_tag. now rewrite !app_assoc_s. }
      rewrite E, one_line_app, Hline, one_line_app.
      now rewrite (Digits_one_line d Hd).
    - unfold rc_tag. simpl. discriminate. }
  assert (S : stable_version_of (Some (stable_tag a b c))
              = a ++ "." ++ b ++ "." ++ c).
  { rewrite stable_version_of_some.
    - unfold stable_tag.
      rewrite <- (app_nil_r_s ("v" ++ a ++ "." ++ b ++ "." ++ c)) at 1.
      rewrite (before_rc_plain _ "" Hplain (or_introl eq_refl)).
      now apply lstrip_v_digits.
    - exact Hline.
    - unfold stable_tag. simpl. discriminate. }
  split; [exact R|]. split; [exact S|].
  rewrite R.
  pose proof (parse_semver_stable_decode a b c "" Ha Hb Hc
                (or_introl eq_refl)) as P.
  rewrite app_nil_r_s in P. exact P.
Qed.

Lemma promotion_of_well_shaped_tags_witness :
  stable_version_of (Some (rc_tag "1" "20" "03" "4"))
  = "1" ++ "." ++ "20" ++ "." ++ "03"
  /\ stable_version_of (Some (stable_tag "1" "20" "03"))
     = "1" ++ "." ++ "20" ++ "." ++ "03"
  /\ parse_semver
       (Some ("v" ++ stable_version_of (Some (rc_tag "1" "20" "03" "4"))))
     = Ok (py_int "1", py_int "20", py_int "03", 0).
Proof.
  apply (promotion_of_well_shaped_tags "1" "20" "03" "4").
  - split; [discriminate | reflexivity].
  - split; [discriminate | reflexivity].
  - split; [discriminate | reflexivity].
  - split; [discriminate | reflexivity].
Defined.

(** ** What is emitted, branch by branch *)

Lemma plain_head (s t : string) :
  str_forall plain_char s = true -> startswith "v" (s ++ "." ++ t) = false.
Proof.
  destruct s as [|c s]; [reflexivity|]. cbn [str_forall]. intros H.
  apply andb_true_iff in H. destruct H as [Hc _].
  change (String c s ++ "." ++ t) with (String c (s ++ "." ++ t)).
  apply startswith_head.
  destruct (Ascii.eqb_spec "v" c) as [<-|]; [discriminate | reflexivity].
Qed.

Lemma next_version_kind
  (major minor patch rc depth : Z) (is_breaking is_feat from_stable : bool) :
  str_in "-rc"
    (calculate_next_version major minor patch rc depth
       is_breaking is_feat from_stable) = true
  /\ startswith "v"
       (calculate_next_version major minor patch rc depth
          is_breaking is_feat from_stable) = false.
Proof.
  rewrite calculate_next_version_numbers.
  destruct (next_numbers _ _ _ _ _ _ _ _) as [[[a b] c] d]. split.
  - exact (rc_version_has_rc (a, b, c, d)).
  - apply plain_head, py_str_plain.
Qed.

(** X16. What [main] appends tells the branch: on [main] or [master] the
    version written holds no [-rc], on every other branch (or with no
    branch name) it holds one; in neither case does it begin with [v].
    Nothing else is ever appended. *)
Theorem emitted_version_matches_branch :
  forall w st,
    writes (snd (main w st)) = writes st
    \/ exists path v,
         writes (snd (main w st)) = (writes st ++ [(path, output_line v)])%list
         /\ str_in "-rc" v
            = negb (on_stable_branch (environ w "GITHUB_REF_NAME"))
         /\ startswith "v" v = false.
Proof.
  intros w st. unfold main.
  pose proof (find_baseline_tag_state w st) as [_ Hw].
  destruct (on_stable_branch (environ w "GITHUB_REF_NAME")) eqn:Hb;
    unfold try_except, bind;
    (destruct (find_baseline_tag w st) as [[[tag fs] | e | c] st1] eqn:F;
     simpl in Hw; [| now left | exit_free F]).
  - unfold print, environ_item. cbn [fst snd stdout calls writes].
    destruct (environ w "GITHUB_OUTPUT") as [path|]; [|now left].
    unfold ret, append_file.
    destruct (open_append w path); [now left|].
    right. exists path, (stable_version_of tag).
    cbn [snd writes]. rewrite Hw. split; [reflexivity|].
    apply stable_version_clean. destruct tag as [t|]; [|reflexivity].
    exact (proj2 (find_baseline_tag_tag _ _ _ _ _ F)).
  - pose proof (get_commit_depth_state w tag st1) as Hs2.
    destruct (get_commit_depth w tag st1) as [[depth | e | c] st2] eqn:D;
      simpl in Hs2; subst st2; [| now left | exit_free D].
    destruct (depth =? 0); [now left|].
    destruct (parse_semver_total tag)
      as (major & minor & patch & rc & ->). cbn [lift ret].
    pose proof (analyze_impact_state w tag
                  (MkState (stdout st1)
                     (calls st1 ++ [subject_query tag]) (writes st1)))
      as Hs3.
    unfold subject_query in Hs3.
    destruct (analyze_impact w tag _) as [[[b f] | e | c] st3] eqn:A;
      simpl in Hs3; subst st3; [| now left | exit_free A].
    unfold environ_item.
    destruct (environ w "GITHUB_OUTPUT") as [path|]; [|now left].
    unfold ret, append_file.
    destruct (open_append w path); [now left|].
    right. eexists path, _. cbn [snd writes]. rewrite Hw.
    split; [reflexivity|]. apply next_version_kind.
Qed.
